(** * OCR_PDF: the text pipeline of [app.py]

    A shallow embedding of the string handling and of the document composer
    of [app.py]:

    - [clean_text], [escape_paragraph_text] and [is_title], together with
      the fragments of Python's [re.sub], [str.strip], [str.split],
      [str.join] and [str.isupper] they rely on;
    - the loop of [pdf_to_single_output_pdf] that turns the text of every
      page into ReportLab flowables, and the function itself, with its
      console output, its [None] result and the exceptions of the external
      engines made explicit.

    Python strings are sequences of Unicode code points: a character is a
    code point in [N], a string a list of them. *)

From Stdlib Require Import String Ascii.
From Stdlib Require Import List NArith Arith Bool Lia QArith.
From Equations Require Import Equations.
Import ListNotations.
Close Scope Q_scope.
Open Scope list_scope.

Set Implicit Arguments.

(** ** Characters and strings *)

Definition char := N.
Definition str := list char.

(** An ASCII literal of the source, as code points. *)
Definition py (s : string) : str := map N_of_ascii (list_ascii_of_string s).

Definition LT : char := 60%N.   (* '<' *)
Definition GT : char := 62%N.   (* '>' *)
Definition NL : char := 10%N.   (* '\n' *)

Definition is_ascii (c : char) : bool := (c <=? 127)%N.

(** ** The regular expressions of the source

    Both patterns are sequences of literals and of greedy [+] repetitions
    of a negated character class, so this is the fragment of [re] that is
    embedded, with the greedy-then-backtrack order of the engine. *)

Module Re.

(** A negated class [[^a-b...]], given by the ranges it excludes. *)
Definition negclass := list (char * char).

Definition in_range (c : char) (r : char * char) : bool :=
  ((fst r <=? c) && (c <=? snd r))%N.

Definition class_matches (cls : negclass) (c : char) : bool :=
  negb (existsb (in_range c) cls).

Inductive item :=
| Lit (c : char)              (* a literal character *)
| Plus (cls : negclass).      (* [[^...]+], greedy *)

Definition pattern := list item.

(** [plus_greedy cls k s]: consume as many characters of the class as
    possible, at least one, then run the rest of the pattern [k];
    give characters back one at a time while [k] fails.  The result is
    the number of characters matched. *)
Fixpoint plus_greedy (cls : negclass) (k : str -> option nat) (s : str)
  : option nat :=
  match s with
  | [] => None
  | x :: t =>
      if class_matches cls x then
        match plus_greedy cls k t with
        | Some n => Some (S n)
        | None => option_map S (k t)
        end
      else None
  end.

(** Match a pattern at the start of [s]: the length of the match. *)
Fixpoint match_here (p : pattern) (s : str) : option nat :=
  match p with
  | [] => Some 0
  | Lit c :: p' =>
      match s with
      | x :: t => if (x =? c)%N then option_map S (match_here p' t) else None
      | [] => None
      end
  | Plus cls :: p' => plus_greedy cls (match_here p') s
  end.

(** [re.sub(p, '', s)]: scan from the left; where the pattern matches,
    drop the match and go on after it, otherwise keep the character.
    (An empty match is replaced by the empty string and the scan moves
    one character on, which keeps the character as well.) *)
Equations? sub (p : pattern) (s : str) : str by wf (length s) lt :=
  sub p [] := [];
  sub p (c :: t) with match_here p (c :: t) := {
    | Some (S n) := sub p (skipn n t);
    | _ := c :: sub p t }.
Proof.
  all: simpl; try lia.
  pose proof (length_skipn n t). lia.
Qed.

End Re.

(** [r'<[^>]+>'] *)
Definition tag_pattern : Re.pattern :=
  [Re.Lit LT; Re.Plus [(GT, GT)]; Re.Lit GT].

(** [r'[^\x00-\x7F]+'] *)
Definition non_ascii_pattern : Re.pattern :=
  [Re.Plus [(0%N, 127%N)]].

(** ** [escape_paragraph_text] *)

Definition escape_paragraph_text (text : str) : str :=
  let text := Re.sub tag_pattern text in
  let text := Re.sub non_ascii_pattern text in
  text.

(** ** The Unicode character database

    [str.isupper], [str.split()] and [str.strip()] consult the Unicode
    character database of the interpreter.  Its ASCII half is written out
    below; the rest of the table is not part of the program and is taken
    as a parameter, consulted for code points above 127 only.  Every code
    point has one case class, as the general categories Lu, Ll and Lt of
    the database exclude each other. *)

Inductive case_kind := Upper | Lower | Title | Caseless.

Record unicode_db := {
  ucd_case : char -> case_kind;     (* case class of a non-ASCII code point *)
  ucd_space : char -> bool          (* whitespace among non-ASCII code points *)
}.

Definition case_kind_eqb (a b : case_kind) : bool :=
  match a, b with
  | Upper, Upper | Lower, Lower | Title, Title | Caseless, Caseless => true
  | _, _ => false
  end.

Section Unicode.

Variable db : unicode_db.

Definition case_of (c : char) : case_kind :=
  if is_ascii c then
    if ((65 <=? c) && (c <=? 90))%N then Upper          (* A-Z *)
    else if ((97 <=? c) && (c <=? 122))%N then Lower    (* a-z *)
    else Caseless
  else ucd_case db c.

Definition Py_UNICODE_ISUPPER (c : char) : bool := case_kind_eqb (case_of c) Upper.
Definition Py_UNICODE_ISLOWER (c : char) : bool := case_kind_eqb (case_of c) Lower.
Definition Py_UNICODE_ISTITLE (c : char) : bool := case_kind_eqb (case_of c) Title.

(** ASCII whitespace: tab, LF, VT, FF, CR, the separators 0x1C-0x1F
    and the space. *)
Definition Py_UNICODE_ISSPACE (c : char) : bool :=
  if is_ascii c then
    (((9 <=? c) && (c <=? 13)) || ((28 <=? c) && (c <=? 31)) || (c =? 32))%N
  else ucd_space db c.

(** *** [str.strip()] *)

Fixpoint dropwhile (f : char -> bool) (s : str) : str :=
  match s with
  | [] => []
  | c :: t => if f c then dropwhile f t else s
  end.

Definition lstrip (s : str) : str := dropwhile Py_UNICODE_ISSPACE s.
Definition rstrip (s : str) : str := rev (dropwhile Py_UNICODE_ISSPACE (rev s)).
Definition strip (s : str) : str := rstrip (lstrip s).

(** *** [str.split()] without a separator

    Runs of whitespace separate the words; no empty word is produced.
    [word] is the word being read, [in_word] tells whether one is. *)
Fixpoint split_whitespace_from (in_word : bool) (word : str) (s : str)
  : list str :=
  match s with
  | [] => if in_word then [word] else []
  | c :: t =>
      if Py_UNICODE_ISSPACE c then
        if in_word then word :: split_whitespace_from false [] t
        else split_whitespace_from false [] t
      else split_whitespace_from true (word ++ [c]) t
  end.

Definition split_whitespace (s : str) : list str :=
  split_whitespace_from false [] s.

(** *** [str.isupper()]

    The loop of the interpreter: a lowercase or titlecase character
    answers no at once; otherwise the answer is whether an uppercase
    character was seen.  Strings of length 0 and 1 are answered before
    the loop. *)
Fixpoint isupper_loop (cased : bool) (s : str) : bool :=
  match s with
  | [] => cased
  | ch :: t =>
      if Py_UNICODE_ISLOWER ch || Py_UNICODE_ISTITLE ch then false
      else if negb cased && Py_UNICODE_ISUPPER ch then isupper_loop true t
      else isupper_loop cased t
  end.

Definition isupper (s : str) : bool :=
  match s with
  | [] => false
  | [ch] => Py_UNICODE_ISUPPER ch
  | _ => isupper_loop false s
  end.

(** ** [clean_text] and [is_title] *)

Definition clean_text (text : str) : str :=
  let text := Re.sub tag_pattern text in
  let cleaned_text := strip text in
  cleaned_text.

Definition is_title (line : str) : bool :=
  isupper line && (length (split_whitespace line) <? 10).

End Unicode.

(** ** [str.split(sep)] and [str.join]

    [starts_with sep s]: [sep] occurs at the start of [s]. *)
Fixpoint starts_with (sep s : str) : bool :=
  match sep, s with
  | [], _ => true
  | _ :: _, [] => false
  | a :: sep', c :: t => (a =? c)%N && starts_with sep' t
  end.

(** The scan of [s.split(sep)]: occurrences of [sep] are found from the
    left and do not overlap; [cur] is the piece read so far.  Empty pieces
    are kept.  Python raises [ValueError] for an empty separator; the
    program passes the literals ["\n\n"] and ["\n"] only, and the
    statements about [split] below are for a separator that is not
    empty. *)
Equations? split_from (sep cur s : str) : list str by wf (length s) lt :=
  split_from sep cur [] := [cur];
  split_from sep cur (c :: t) with starts_with sep (c :: t) := {
    | true := cur :: split_from sep [] (skipn (length sep - 1) t);
    | false := split_from sep (cur ++ [c]) t }.
Proof.
  all: simpl; try lia.
  pose proof (length_skipn (length sep - 1) t). lia.
Qed.

(** [s.split(sep)] *)
Definition split (s sep : str) : list str := split_from sep [] s.

(** [sep.join(l)] *)
Fixpoint join (sep : str) (l : list str) : str :=
  match l with
  | [] => []
  | [x] => x
  | x :: rest => x ++ sep ++ join sep rest
  end.

(** ** The output document

    The flowables of ReportLab the program appends to [content]. *)

Inductive style :=
| normal_style      (* styles['Normal'] of the sample style sheet *)
| title_style.      (* ParagraphStyle(name='Title', fontSize=14, spaceAfter=12) *)

Definition fontSize_title : Q := 14.
Definition spaceAfter_title : Q := 12.

Inductive flowable :=
| Paragraph (text : str) (st : style)
| Spacer (width height : Q)
| PageBreak.

(** Lengths are in points, [inch] is 72 of them.  The program computes
    with floats; the embedding keeps the products as rationals. *)
Definition inch : Q := 72.
Definition letter : Q * Q := (612, 792)%Q.

Record doc_template := SimpleDocTemplate {
  pagesize : Q * Q;
  leftMargin : Q;
  rightMargin : Q;
  topMargin : Q;
  bottomMargin : Q
}.

Definition spacer_height : Q := (2 # 10) * inch.

Section Composer.

Variable db : unicode_db.

(** The layout of the text, apart from the calls that may raise: what
    the loops of [pdf_to_single_output_pdf] append to [content] once every
    [Paragraph(...)] is constructed.  The loops themselves, with the calls
    to [Paragraph], are [line_step] to [pages_loop] below, and
    [page_step_run] relates the two.

    A line appends its paragraph, title-styled or normal-styled. *)
Definition add_line (content : list flowable) (line : str) : list flowable :=
  let line := escape_paragraph_text line in
  if is_title db line then content ++ [Paragraph line title_style]
  else content ++ [Paragraph line normal_style].

(** A paragraph appends its lines and a spacer. *)
Definition add_paragraph (content : list flowable) (paragraph : str)
  : list flowable :=
  let lines := split paragraph [NL] in
  let content := fold_left add_line lines content in
  content ++ [Spacer 1 spacer_height].

(** A page appends its paragraphs and a page break. *)
Definition add_page (content : list flowable) (text : str) : list flowable :=
  let paragraphs := split text [NL; NL] in
  let content := fold_left add_paragraph paragraphs content in
  content ++ [PageBreak].

End Composer.

(** ** Effects: console output, [None], exceptions *)

Inductive exn := Exception (name : str).

Inductive outcome (A : Type) :=
| Return (a : A)
| Raise (e : exn).
Arguments Return {A} a.
Arguments Raise {A} e.

(** A computation reads the lines printed so far and gives its outcome
    and the lines printed after it. *)
Definition io (A : Type) := list str -> outcome A * list str.

Definition ret {A} (a : A) : io A := fun out => (Return a, out).

Definition bind {A B} (c : io A) (k : A -> io B) : io B :=
  fun out =>
    match c out with
    | (Return a, out') => k a out'
    | (Raise e, out') => (Raise e, out')
    end.

Definition lift {A} (o : outcome A) : io A := fun out => (o, out).

Definition print (line : str) : io unit := fun out => (Return tt, out ++ [line]).

Notation "x <- c ;; k" := (bind c (fun x => k))
  (at level 61, c at next level, right associativity).
Notation "c ;;; k" := (bind c (fun _ => k))
  (at level 61, right associativity).

Definition bytes := list Byte.byte.

Inductive image_filter_kind := SHARPEN.

(** The external collaborators: the file system, pdf2image, PIL,
    pytesseract, and of ReportLab the markup parser that the constructor
    of [Paragraph] runs on its text and the document builder.  The engines
    may raise. *)
Record engines := {
  image : Type;
  os_path_exists : str -> bool;
  convert_from_path : str -> outcome (list image);
  image_convert : image -> str -> image;
  contrast_enhance : image -> Q -> image;
  image_filter : image -> image_filter_kind -> image;
  image_to_string : image -> str -> str -> outcome str;     (* image, lang, config *)
  para_parse : str -> style -> outcome unit;                (* text, style *)
  doc_build : doc_template -> list flowable -> outcome bytes
}.

Section Pipeline.

Variable db : unicode_db.
Variable env : engines.

Definition preprocess_image (img : image env) : image env :=
  let gray_image := image_convert env img (py "L") in
  let enhanced_image := contrast_enhance env gray_image 2 in
  let sharpened_image := image_filter env enhanced_image SHARPEN in
  sharpened_image.

Definition pdf_to_images (pdf_path : str) : outcome (list (image env)) :=
  convert_from_path env pdf_path.

Definition extract_text_from_image (img : image env) : outcome str :=
  let preprocessed_image := preprocess_image img in
  let custom_config := py "--oem 3 --psm 6" in
  match image_to_string env preprocessed_image (py "por") custom_config with
  | Return text => Return (clean_text db text)
  | Raise e => Raise e
  end.

(** [Paragraph(text, style)]: the constructor parses the text as markup
    and raises when the parser does; the flowable it returns holds the
    text and the style. *)
Definition make_paragraph (text : str) (st : style) : outcome flowable :=
  match para_parse env text st with
  | Return _ => Return (Paragraph text st)
  | Raise e => Raise e
  end.

(** The body of [for line in lines]. *)
Definition line_step (content : list flowable) (line : str)
  : io (list flowable) :=
  let line := escape_paragraph_text line in
  if is_title db line then
    p <- lift (make_paragraph line title_style) ;;
    ret (content ++ [p])
  else
    p <- lift (make_paragraph line normal_style) ;;
    ret (content ++ [p]).

Fixpoint lines_loop (lines : list str) (content : list flowable)
  : io (list flowable) :=
  match lines with
  | [] => ret content
  | line :: rest =>
      content <- line_step content line ;;
      lines_loop rest content
  end.

(** The body of [for paragraph in paragraphs]. *)
Definition paragraph_step (content : list flowable) (paragraph : str)
  : io (list flowable) :=
  let lines := split paragraph [NL] in
  content <- lines_loop lines content ;;
  ret (content ++ [Spacer 1 spacer_height]).

Fixpoint paragraphs_loop (paragraphs : list str) (content : list flowable)
  : io (list flowable) :=
  match paragraphs with
  | [] => ret content
  | paragraph :: rest =>
      content <- paragraph_step content paragraph ;;
      paragraphs_loop rest content
  end.

(** What is done with the text of one page. *)
Definition page_step (content : list flowable) (text : str)
  : io (list flowable) :=
  let paragraphs := split text [NL; NL] in
  content <- paragraphs_loop paragraphs content ;;
  ret (content ++ [PageBreak]).

(** [for image in images]: the text of a page is extracted, then laid
    out, before the next page is looked at. *)
Fixpoint pages_loop (images : list (image env)) (content : list flowable)
  : io (list flowable) :=
  match images with
  | [] => ret content
  | img :: rest =>
      text <- lift (extract_text_from_image img) ;;
      content <- page_step content text ;;
      pages_loop rest content
  end.

(** The line printed for a missing file. *)
Definition missing_file_message (input_pdf_path : str) : str :=
  py "O arquivo " ++ input_pdf_path ++ py " n" ++ [227%N] ++ py "o existe.".

Definition output_template : doc_template :=
  SimpleDocTemplate letter ((5 # 10) * inch) ((5 # 10) * inch)
                    (1 * inch) ((5 # 10) * inch).

(** The result is [None] where the source returns without a value. *)
Definition pdf_to_single_output_pdf (input_pdf_path : str) : io (option bytes) :=
  if negb (os_path_exists env input_pdf_path) then
    print (missing_file_message input_pdf_path) ;;;
    ret None
  else
    images <- lift (pdf_to_images input_pdf_path) ;;
    content <- pages_loop images [] ;;
    pdf <- lift (doc_build env output_template content) ;;
    ret (Some pdf).

End Pipeline.

(** ** The vocabulary of the specification *)

(** [w] has the shape of the pattern [<[^>]+>]: an opening bracket, at
    least one character other than the closing bracket, and the closing
    bracket. *)
Definition matches_tag (w : str) : Prop :=
  exists body, w = LT :: body ++ [GT] /\ body <> [] /\ Forall (fun c => c <> GT) body.

Definition contains_tag (s : str) : Prop :=
  exists pre w post, s = pre ++ w ++ post /\ matches_tag w.

Definition tag_free (s : str) : Prop := ~ contains_tag s.

Definition ascii_only (s : str) : Prop := Forall (fun c => (c < 128)%N) s.

(** [opens_tag t]: an opening bracket followed by [t] starts a tag. *)
Definition opens_tag (t : str) : bool :=
  match t with
  | [] => false
  | x :: t' => negb (x =? GT)%N && existsb (fun c => (c =? GT)%N) t'
  end.

(** The decidable form of [contains_tag]. *)
Fixpoint has_tag (s : str) : bool :=
  match s with
  | [] => false
  | c :: t => ((c =? LT)%N && opens_tag t) || has_tag t
  end.

(** [subsequence s x]: [s] is [x] with some characters deleted. *)
Inductive subsequence {A : Type} : list A -> list A -> Prop :=
| subseq_nil : subsequence [] []
| subseq_keep : forall a s x, subsequence s x -> subsequence (a :: s) (a :: x)
| subseq_drop : forall a s x, subsequence s x -> subsequence s (a :: x).

(** Python's wording of [isupper]: there is a cased character and every
    cased character is uppercase. *)
Definition cased (db : unicode_db) (c : char) : Prop := case_of db c <> Caseless.

Definition uppercase_line (db : unicode_db) (line : str) : Prop :=
  (exists c, In c line /\ cased db c) /\
  (forall c, In c line -> cased db c -> case_of db c = Upper).

(** The words of a line are its maximal runs of characters that are not
    whitespace: a word starts at every such character that comes first or
    follows whitespace.  [after_space] tells whether the previous character
    allows a word to start. *)
Fixpoint count_words_from (db : unicode_db) (after_space : bool) (s : str) : nat :=
  match s with
  | [] => 0
  | c :: t =>
      if Py_UNICODE_ISSPACE db c then count_words_from db true t
      else (if after_space then 1 else 0) + count_words_from db false t
  end.

Definition count_words (db : unicode_db) (line : str) : nat :=
  count_words_from db true line.

Definition is_some {A} (o : option A) : bool :=
  match o with Some _ => true | None => false end.

Definition is_page_break (f : flowable) : bool :=
  match f with PageBreak => true | _ => false end.

Definition count_page_breaks (content : list flowable) : nat :=
  length (filter is_page_break content).

(** The text of a content unit is ASCII and free of tags. *)
Definition unit_ok (f : flowable) : Prop :=
  match f with
  | Paragraph text _ => ascii_only text /\ tag_free text
  | _ => True
  end.

(** A string starts (ends) with whitespace. *)
Definition leading_space (db : unicode_db) (s : str) : Prop :=
  exists c t, s = c :: t /\ Py_UNICODE_ISSPACE db c = true.

Definition trailing_space (db : unicode_db) (s : str) : Prop :=
  exists t c, s = t ++ [c] /\ Py_UNICODE_ISSPACE db c = true.

(** The style the loop gives to an escaped line. *)
Definition line_style (db : unicode_db) (line : str) : style :=
  if is_title db line then title_style else normal_style.

(** What the constructor of [Paragraph] raises for a line of the text,
    if it does. *)
Definition rejection (db : unicode_db) (env : engines) (line : str) : option exn :=
  let line := escape_paragraph_text line in
  match para_parse env line (line_style db line) with
  | Return _ => None
  | Raise e => Some e
  end.

(** The first exception among the lines, in order. *)
Fixpoint first_rejection (db : unicode_db) (env : engines) (lines : list str)
  : option exn :=
  match lines with
  | [] => None
  | line :: rest =>
      match rejection db env line with
      | Some e => Some e
      | None => first_rejection db env rest
      end
  end.

(** The constructor of [Paragraph] accepts the line, once escaped, in the
    style the loop gives it. *)
Definition accepted (db : unicode_db) (env : engines) (line : str) : Prop :=
  para_parse env (escape_paragraph_text line)
             (line_style db (escape_paragraph_text line)) = Return tt.

(** The lines of a page text, over all its paragraphs. *)
Definition lines_of (text : str) : list str :=
  concat (map (fun paragraph => split paragraph [NL]) (split text [NL; NL])).

Definition page_accepted (db : unicode_db) (env : engines) (text : str) : Prop :=
  Forall (accepted db env) (lines_of text).

(** No tag of [s] starts among its first [n] characters. *)
Definition no_tag_starts_before (n : nat) (s : str) : Prop :=
  forall pre w post, s = pre ++ w ++ post -> matches_tag w -> n <= length pre.

(** [tags_removed s r]: [r] is [s] without its tags, taken from the left:
    the first tag to start is cut out whole, and so on in what follows
    it; a string without tags is kept as it is. *)
Inductive tags_removed : str -> str -> Prop :=
| tags_removed_none : forall s, tag_free s -> tags_removed s s
| tags_removed_first : forall a w rest r,
    matches_tag w ->
    no_tag_starts_before (length a) (a ++ w ++ rest) ->
    tags_removed rest r ->
    tags_removed (a ++ w ++ rest) (a ++ r).

(** ** Concrete collaborators for the examples *)

(** A stand-in for the markup parser: it refuses every text in which an
    opening bracket is left. *)
Definition plain_markup (text : str) (st : style) : outcome unit :=
  if existsb (fun c => (c =? LT)%N) text
  then Raise (Exception (py "ValueError"))
  else Return tt.


(** The database below code point 256, with the whitespace of the whole
    table: the uppercase and lowercase letters of Latin-1, the ordinal
    indicators and the micro sign. *)
Definition latin1_db : unicode_db := {|
  ucd_case := fun c =>
    if (((192 <=? c) && (c <=? 222)) && negb (c =? 215))%N then Upper
    else if ((((223 <=? c) && (c <=? 255)) && negb (c =? 247))
             || (c =? 170) || (c =? 181) || (c =? 186))%N then Lower
    else Caseless;
  ucd_space := fun c =>
    ((c =? 133) || (c =? 160) || (c =? 5760)
     || ((8192 <=? c) && (c <=? 8202)) || (c =? 8232) || (c =? 8233)
     || (c =? 8239) || (c =? 8287) || (c =? 12288))%N
|}.

Definition str_eqb (a b : str) : bool :=
  if list_eq_dec N.eq_dec a b then true else false.

(** A file system given as a table from paths to documents, a document
    being the list of the texts on its pages.  A page image is the text
    printed on it, which the recogniser reads back unchanged; the builder
    writes an empty buffer. *)
Definition lookup_file (files : list (str * list str)) (path : str)
  : option (list str) :=
  option_map snd (find (fun f => str_eqb (fst f) path) files).

Definition text_env (files : list (str * list str)) : engines := {|
  image := str;
  os_path_exists := fun path =>
    match lookup_file files path with Some _ => true | None => false end;
  convert_from_path := fun path =>
    match lookup_file files path with
    | Some pages => Return pages
    | None => Raise (Exception (py "PDFPageCountError"))
    end;
  image_convert := fun img _ => img;
  contrast_enhance := fun img _ => img;
  image_filter := fun img _ => img;
  image_to_string := fun img _ _ => Return img;
  para_parse := plain_markup;
  doc_build := fun _ _ => Return []
|}.

Definition scan_path : str := py "scan.pdf".

(** A document of two pages. *)
Definition scan_pages : list str :=
  [py "  FIRST PAGE" ++ [NL]; py "second page" ++ [NL; NL] ++ py "<i>end</i>"].

Definition scan_env : engines := text_env [(scan_path, scan_pages)].

(** The page of the end-to-end example of the specification. *)
Definition sample_text : str :=
  py "TITLE HERE" ++ [NL; NL] ++ py "Body text line one" ++ [NL]
  ++ py "Body text line two".

(** The content the page is said to produce, item by item. *)
Definition sample_content_as_stated : list flowable :=
  [ Paragraph (py "TITLE HERE") title_style;
    Spacer 1 spacer_height;
    Paragraph (py "Body text line one") normal_style;
    Paragraph (py "Body text line two") normal_style;
    PageBreak ].

(** The content the loop appends for it. *)
Definition sample_content : list flowable :=
  [ Paragraph (py "TITLE HERE") title_style;
    Spacer 1 spacer_height;
    Paragraph (py "Body text line one") normal_style;
    Paragraph (py "Body text line two") normal_style;
    Spacer 1 spacer_height;
    PageBreak ].

Definition sample_env : engines := text_env [(scan_path, [sample_text])].

(** ** The Streamlit script

    The statements at the end of [app.py]: the page shows a title and a
    file uploader; when a file was uploaded it is written to ["temp.pdf"],
    converted, offered for download, and the temporary file is removed. *)

Inductive widget :=
| st_title (body : str)
| st_file_uploader (label : str) (type : str)
| st_download_button (label : str) (data : option bytes) (file_name mime : str).

(** The files on disk, by path. *)
Definition filesystem := str -> option bytes.

(** [open(path, "wb")] followed by [write(data)]. *)
Definition write_file (path : str) (data : bytes) (fs : filesystem) : filesystem :=
  fun p => if str_eqb p path then Some data else fs p.

(** [os.remove(path)] raises when there is no such file. *)
Definition os_remove (path : str) (fs : filesystem) : outcome filesystem :=
  match fs path with
  | Some _ => Return (fun p => if str_eqb p path then None else fs p)
  | None => Raise (Exception (py "FileNotFoundError"))
  end.

(** The engines [base] at work on the files [fs]: a path exists when
    there is a file under it, and the rasterizer reads the bytes of the
    file. *)
Definition on_disk (base : engines)
           (rasterize : bytes -> outcome (list (image base)))
           (fs : filesystem) : engines := {|
  image := image base;
  os_path_exists := fun path => is_some (fs path);
  convert_from_path := fun path =>
    match fs path with
    | Some data => rasterize data
    | None => Raise (Exception (py "PDFPageCountError"))
    end;
  image_convert := image_convert base;
  contrast_enhance := contrast_enhance base;
  image_filter := image_filter base;
  image_to_string := image_to_string base;
  para_parse := para_parse base;
  doc_build := doc_build base
|}.

(** What the script acts on: the disk, the console and the page shown. *)
Record world := World {
  files : filesystem;
  stdout : list str;
  page : list widget
}.

Definition show (w : widget) (st : world) : world :=
  World (files st) (stdout st) (page st ++ [w]).

Definition temp_pdf : str := py "temp.pdf".

Definition download_button (output_pdf_content : option bytes) : widget :=
  st_download_button (py "Baixar PDF Processado") output_pdf_content
                     (py "output.pdf") (py "application/pdf").

(** One run of the script; [uploaded_file] is what [st.file_uploader]
    returns, [None] before a file is chosen. *)
Definition script (db : unicode_db) (base : engines)
           (rasterize : bytes -> outcome (list (image base)))
           (uploaded_file : option bytes) (st : world) : outcome unit * world :=
  let st := show (st_title (py "Processador de PDF com OCR")) st in
  let st := show (st_file_uploader (py "Escolha um arquivo PDF") (py "pdf")) st in
  match uploaded_file with
  | None => (Return tt, st)
  | Some buffer =>
      let st := World (write_file temp_pdf buffer (files st)) (stdout st) (page st) in
      match pdf_to_single_output_pdf db (on_disk base rasterize (files st))
                                     temp_pdf (stdout st) with
      | (Raise e, out) => (Raise e, World (files st) out (page st))
      | (Return output_pdf_content, out) =>
          let st := World (files st) out (page st) in
          let st := show (download_button output_pdf_content) st in
          match os_remove temp_pdf (files st) with
          | Return fs => (Return tt, World fs (stdout st) (page st))
          | Raise e => (Raise e, st)
          end
      end
  end.

(** ** More vocabulary *)

(** [sep] occurs in [s]. *)
Definition occurs (sep s : str) : Prop := exists l r, s = l ++ sep ++ r.

Definition is_spacer (f : flowable) : bool :=
  match f with Spacer _ _ => true | _ => false end.

Definition is_upper_ascii (c : char) : bool := ((65 <=? c) && (c <=? 90))%N.
Definition is_lower_ascii (c : char) : bool := ((97 <=? c) && (c <=? 122))%N.

(** ** More collaborators for the examples *)

(** Engines over texts as in [text_env], where every path exists but no
    file can be rasterized. *)
Definition corrupt_env : engines := {|
  image := str;
  os_path_exists := fun _ => true;
  convert_from_path := fun _ => Raise (Exception (py "PDFSyntaxError"));
  image_convert := fun img _ => img;
  contrast_enhance := fun img _ => img;
  image_filter := fun img _ => img;
  image_to_string := fun img _ _ => Return img;
  para_parse := plain_markup;
  doc_build := fun _ _ => Return []
|}.

(** A page the recogniser gives up on. *)
Definition smudge : str := py "#".

(** Engines over texts whose recogniser raises on [smudge]. *)
Definition fragile_env (docs : list (str * list str)) : engines := {|
  image := str;
  os_path_exists := os_path_exists (text_env docs);
  convert_from_path := convert_from_path (text_env docs);
  image_convert := fun img _ => img;
  contrast_enhance := fun img _ => img;
  image_filter := fun img _ => img;
  image_to_string := fun img _ _ =>
    if str_eqb img smudge then Raise (Exception (py "TesseractError"))
    else Return img;
  para_parse := plain_markup;
  doc_build := fun _ _ => Return []
|}.

(** A document of three pages, the second one smudged. *)
Definition smudged_pages : list str := [py "ONE"; smudge; py "three"].

Definition smudged_env : engines := fragile_env [(scan_path, smudged_pages)].

(** A document of three pages: the second one keeps an opening bracket
    after it is escaped, the third one is smudged. *)
Definition bracket_pages : list str := [py "ok"; py "x <y"; smudge].

Definition bracket_env : engines := fragile_env [(scan_path, bracket_pages)].

(** A document of three pages, the second one blank. *)
Definition gap_pages : list str := [py "ONE"; []; py "three"].

Definition gap_env : engines := text_env [(scan_path, gap_pages)].

(** A rasterizer for the examples: the bytes of a file are the text of
    its only page; an empty file is not a document. *)
Definition one_page (data : bytes) : outcome (list str) :=
  match data with
  | [] => Raise (Exception (py "PDFPageCountError"))
  | _ => Return [map Byte.to_N data]
  end.

Definition bytes_of (s : string) : bytes := list_byte_of_string s.

(** A disk with one unrelated file, an empty console and an empty page. *)
Definition start_world : world :=
  World (fun p => if str_eqb p (py "notes.txt") then Some (bytes_of "keep") else None)
        [] [].

(** * Properties *)

(** ** Examples *)

Example escape_spec_example :
  escape_paragraph_text (py "<b>Hello</b> World") = py "Hello World".
Proof. reflexivity. Qed.

Example escape_strips_accent :
  escape_paragraph_text (py "RELAT" ++ [211%N] ++ py "RIO FINAL")
  = py "RELATRIO FINAL".
Proof. reflexivity. Qed.

Example escape_keeps_empty_brackets :
  escape_paragraph_text (py "a<>b<c") = py "a<>b<c".
Proof. reflexivity. Qed.

Example is_title_accented :
  is_title latin1_db (py "RELAT" ++ [211%N] ++ py "RIO FINAL") = true.
Proof. reflexivity. Qed.

Example is_title_ten_words :
  is_title latin1_db (py "A B C D E F G H I J") = false
  /\ is_title latin1_db (py "A B C D E F G H I") = true.
Proof. split; reflexivity. Qed.

Example split_keeps_empty_units :
  split (py "a" ++ [NL; NL; NL] ++ py "b") [NL; NL] = [py "a"; NL :: py "b"]
  /\ split [NL; NL] [NL; NL] = [[]; []]
  /\ split [] [NL] = [[]].
Proof. repeat split; reflexivity. Qed.

Example clean_text_whole_string_only :
  clean_text latin1_db (py "  <i>a </i>" ++ [NL] ++ py " b " ++ [NL])
  = py "a " ++ [NL] ++ py " b".
Proof. reflexivity. Qed.

Example add_page_sample :
  add_page latin1_db [] sample_text = sample_content.
Proof. reflexivity. Qed.

(** ** The scan of [re.sub] *)

Lemma sub_cons (p : Re.pattern) (c : char) (t : str) :
  Re.sub p (c :: t) =
  match Re.match_here p (c :: t) with
  | Some (S n) => Re.sub p (skipn n t)
  | _ => c :: Re.sub p t
  end.
Proof.
  simp sub.
  destruct (Re.match_here p (c :: t)) as [[|n]|]; reflexivity.
Qed.

(** Induction on the length of a string, for the scans that jump. *)
Lemma str_length_ind (P : str -> Prop) :
  (forall s, (forall s', length s' < length s -> P s') -> P s) ->
  forall s, P s.
Proof.
  intros step s.
  remember (length s) as n eqn:Hn.
  revert s Hn.
  induction n as [n IH] using lt_wf_ind.
  intros s ->. apply step. intros s' Hlt. eapply IH; eauto.
Qed.

Lemma subsequence_refl {A} (x : list A) : subsequence x x.
Proof. induction x; constructor; assumption. Qed.

Lemma subsequence_trans {A} (a b c : list A) :
  subsequence a b -> subsequence b c -> subsequence a c.
Proof.
  intros Hab Hbc. revert a Hab.
  induction Hbc as [| x b c Hbc IH | x b c Hbc IH]; intros a Hab.
  - assumption.
  - inversion Hab; subst.
    + constructor. apply IH. assumption.
    + apply subseq_drop. apply IH. assumption.
  - apply subseq_drop. apply IH. assumption.
Qed.

Lemma subsequence_skipn {A} (n : nat) (x : list A) : subsequence (skipn n x) x.
Proof.
  revert x. induction n as [|n IH]; intros [|a x]; simpl.
  - constructor.
  - apply subsequence_refl.
  - constructor.
  - apply subseq_drop. apply IH.
Qed.

Lemma subsequence_length {A} (s x : list A) :
  subsequence s x -> length s <= length x.
Proof. induction 1; simpl; lia. Qed.

Lemma subsequence_In {A} (s x : list A) (a : A) :
  subsequence s x -> In a s -> In a x.
Proof.
  induction 1; simpl; intros Hin; auto.
  destruct Hin; auto.
Qed.

(** Whatever the pattern, [re.sub] with an empty replacement only deletes. *)
Lemma sub_subsequence (p : Re.pattern) (s : str) : subsequence (Re.sub p s) s.
Proof.
  induction s as [s IH] using str_length_ind.
  destruct s as [|c t].
  - simp sub. constructor.
  - rewrite sub_cons.
    destruct (Re.match_here p (c :: t)) as [[|n]|].
    + constructor. apply IH. simpl. lia.
    + apply subseq_drop.
      eapply subsequence_trans; [apply IH | apply subsequence_skipn].
      simpl. pose proof (length_skipn n t). lia.
    + constructor. apply IH. simpl. lia.
Qed.

(** ** The tag pattern *)

Lemma in_range_single (x c : char) : Re.in_range x (c, c) = (x =? c)%N.
Proof.
  unfold Re.in_range. simpl.
  destruct (N.eqb_spec x c) as [->|Hne].
  - rewrite N.leb_refl. reflexivity.
  - destruct (N.leb_spec c x), (N.leb_spec x c); simpl; try reflexivity; lia.
Qed.

Lemma not_gt_class (x : char) :
  Re.class_matches [(GT, GT)] x = negb (x =? GT)%N.
Proof.
  unfold Re.class_matches. simpl. rewrite in_range_single, orb_false_r.
  reflexivity.
Qed.

Lemma match_tag_cons (c : char) (t : str) :
  Re.match_here tag_pattern (c :: t) =
  if (c =? LT)%N
  then option_map S (Re.plus_greedy [(GT, GT)] (Re.match_here [Re.Lit GT]) t)
  else None.
Proof. reflexivity. Qed.

Lemma opens_tag_has_gt (t : str) :
  opens_tag t = true -> existsb (fun c => (c =? GT)%N) t = true.
Proof.
  destruct t as [|y t]; simpl; [discriminate|].
  intros H. apply andb_true_iff in H. destruct H as [_ ->].
  apply orb_true_r.
Qed.

(** The greedy repetition followed by the closing bracket succeeds exactly
    on the strings that open a tag. *)
Lemma plus_greedy_tag (t : str) :
  is_some (Re.plus_greedy [(GT, GT)] (Re.match_here [Re.Lit GT]) t) = opens_tag t.
Proof.
  induction t as [|x t IH]; [reflexivity|].
  cbn [Re.plus_greedy opens_tag]. rewrite not_gt_class.
  destruct (x =? GT)%N; [reflexivity|]. cbn [negb andb].
  destruct (Re.plus_greedy [(GT, GT)] (Re.match_here [Re.Lit GT]) t) as [n|].
  - simpl in IH. symmetry in IH. rewrite (opens_tag_has_gt _ IH). reflexivity.
  - simpl in IH. destruct t as [|y t]; [reflexivity|].
    cbn in IH |- *. destruct (y =? GT)%N; [reflexivity|].
    simpl in IH |- *. rewrite <- IH. reflexivity.
Qed.

Lemma tag_match_cases (c : char) (t : str) :
  match Re.match_here tag_pattern (c :: t) with
  | Some (S _) => c = LT /\ opens_tag t = true
  | Some 0 => False
  | None => c <> LT \/ opens_tag t = false
  end.
Proof.
  rewrite match_tag_cons.
  destruct (N.eqb_spec c LT) as [->|Hne]; [|left; assumption].
  pose proof (plus_greedy_tag t) as H.
  destruct (Re.plus_greedy [(GT, GT)] (Re.match_here [Re.Lit GT]) t); simpl in *.
  - split; [reflexivity | symmetry; assumption].
  - right. symmetry. assumption.
Qed.

(** The length of a match of the repetition and the bracket. *)
Lemma plus_greedy_tag_length (body rest : str) :
  body <> [] -> Forall (fun c => c <> GT) body ->
  Re.plus_greedy [(GT, GT)] (Re.match_here [Re.Lit GT]) (body ++ GT :: rest)
  = Some (S (length body)).
Proof.
  induction body as [|x body IH]; [congruence|].
  intros _ Hall. inversion Hall as [|? ? Hx Hbody]; subst.
  cbn [app Re.plus_greedy]. rewrite not_gt_class.
  apply N.eqb_neq in Hx. rewrite Hx. cbn [negb].
  destruct body as [|y body].
  - cbn. reflexivity.
  - rewrite IH; [reflexivity | discriminate | assumption].
Qed.

Lemma plus_greedy_tag_inv (t : str) (n : nat) :
  Re.plus_greedy [(GT, GT)] (Re.match_here [Re.Lit GT]) t = Some n ->
  exists body rest,
    t = body ++ GT :: rest /\ body <> [] /\ Forall (fun c => c <> GT) body
    /\ n = S (length body).
Proof.
  revert n. induction t as [|x t IH]; intros n; [discriminate|].
  cbn [Re.plus_greedy]. rewrite not_gt_class.
  destruct (N.eqb_spec x GT) as [->|Hx]; [discriminate|]. cbn [negb].
  destruct (Re.plus_greedy [(GT, GT)] (Re.match_here [Re.Lit GT]) t) as [m|].
  - intros [= <-]. destruct (IH m eq_refl) as (body & rest & -> & _ & Hall & ->).
    exists (x :: body), rest. repeat split; try discriminate; auto.
  - destruct t as [|y t]; [discriminate|]. cbn.
    destruct (N.eqb_spec y GT) as [->|Hy]; [|discriminate].
    intros [= <-]. exists [x], t. repeat split; try discriminate; auto.
Qed.

(** [matches_tag] is the pattern of the source: the strings of that shape
    are those the matcher consumes whole. *)
Lemma matches_tag_matcher (w : str) :
  matches_tag w <-> Re.match_here tag_pattern w = Some (length w).
Proof.
  split.
  - intros (body & -> & Hne & Hall).
    rewrite match_tag_cons. cbn [N.eqb LT Pos.eqb].
    change (body ++ [GT]) with (body ++ GT :: []).
    rewrite plus_greedy_tag_length by assumption.
    simpl. rewrite length_app. simpl. f_equal. lia.
  - destruct w as [|c t]; [discriminate|].
    rewrite match_tag_cons.
    destruct (N.eqb_spec c LT) as [->|]; [|discriminate].
    destruct (Re.plus_greedy [(GT, GT)] (Re.match_here [Re.Lit GT]) t) as [n|] eqn:E;
      [|discriminate].
    simpl. intros [= ->].
    apply plus_greedy_tag_inv in E.
    destruct E as (body & rest & -> & Hne & Hall & Hlen).
    rewrite length_app in Hlen. simpl in Hlen.
    assert (rest = []) as -> by (destruct rest; [reflexivity | simpl in Hlen; lia]).
    exists body. auto.
Qed.

Lemma opens_tag_iff (t : str) :
  opens_tag t = true <->
  exists body rest,
    t = body ++ GT :: rest /\ body <> [] /\ Forall (fun c => c <> GT) body.
Proof.
  rewrite <- plus_greedy_tag. split.
  - destruct (Re.plus_greedy [(GT, GT)] (Re.match_here [Re.Lit GT]) t) as [n|] eqn:E;
      [|discriminate].
    intros _. apply plus_greedy_tag_inv in E.
    destruct E as (body & rest & H1 & H2 & H3 & _). eauto.
  - intros (body & rest & -> & Hne & Hall).
    rewrite plus_greedy_tag_length by assumption. reflexivity.
Qed.

Lemma has_tag_iff (s : str) : has_tag s = true <-> contains_tag s.
Proof.
  split.
  - induction s as [|c t IH]; [discriminate|].
    simpl. intros H. apply orb_true_iff in H. destruct H as [H|H].
    + apply andb_true_iff in H. destruct H as [Hc Ho].
      apply N.eqb_eq in Hc. subst c.
      apply opens_tag_iff in Ho. destruct Ho as (body & rest & -> & Hne & Hall).
      exists [], (LT :: body ++ [GT]), rest. split.
      * simpl. rewrite <- app_assoc. reflexivity.
      * exists body. auto.
    + destruct (IH H) as (pre & w & post & -> & Hw).
      exists (c :: pre), w, post. split; [reflexivity | assumption].
  - intros (pre & w & post & -> & body & -> & Hne & Hall).
    induction pre as [|a pre IH].
    + simpl. apply orb_true_iff. left.
      rewrite <- app_assoc. simpl.
      apply (proj2 (opens_tag_iff _)). eauto.
    + rewrite <- app_comm_cons. cbn [has_tag]. rewrite IH. apply orb_true_r.
Qed.

Lemma tag_free_iff (s : str) : tag_free s <-> has_tag s = false.
Proof.
  unfold tag_free. rewrite <- has_tag_iff.
  destruct (has_tag s); split; congruence.
Qed.

Lemma no_gt_subsequence (s x : str) :
  subsequence s x ->
  existsb (fun c => (c =? GT)%N) x = false ->
  existsb (fun c => (c =? GT)%N) s = false.
Proof.
  induction 1 as [| a s x _ IH | a s x _ IH]; simpl; intros H; auto;
    apply orb_false_iff in H; destruct H as [Ha Hx].
  - rewrite Ha. auto.
  - auto.
Qed.

(** A deletion that keeps a leading closing bracket cannot make the rest
    of a string open a tag. *)
Lemma opens_tag_deletion (g : str -> str) (t : str) :
  subsequence (g t) t ->
  (forall t', t = GT :: t' -> exists u, g t = GT :: u) ->
  opens_tag t = false -> opens_tag (g t) = false.
Proof.
  intros Hsub Hgt Ho.
  destruct t as [|x t'].
  - inversion Hsub. reflexivity.
  - simpl in Ho. destruct (N.eqb_spec x GT) as [->|Hx].
    + destruct (Hgt t' eq_refl) as [u ->]. reflexivity.
    + simpl in Ho.
      assert (existsb (fun c => (c =? GT)%N) (x :: t') = false) as Hno.
      { simpl. apply N.eqb_neq in Hx. rewrite Hx, Ho. reflexivity. }
      pose proof (no_gt_subsequence Hsub Hno) as Hg.
      destruct (opens_tag (g (x :: t'))) eqn:E; [|reflexivity].
      apply opens_tag_has_gt in E. congruence.
Qed.

Lemma sub_tag_keeps_gt (t' : str) :
  exists u, Re.sub tag_pattern (GT :: t') = GT :: u.
Proof. rewrite sub_cons. cbn. eauto. Qed.

(** After the tags are removed, no tag is left. *)
Lemma has_tag_sub (s : str) : has_tag (Re.sub tag_pattern s) = false.
Proof.
  induction s as [s IH] using str_length_ind.
  destruct s as [|c t]; [reflexivity|].
  rewrite sub_cons. pose proof (tag_match_cases c t) as Hm.
  destruct (Re.match_here tag_pattern (c :: t)) as [[|n]|]; [contradiction | |].
  - apply IH. simpl. pose proof (length_skipn n t). lia.
  - simpl. rewrite (IH t) by (simpl; lia). rewrite orb_false_r.
    destruct Hm as [Hc|Ho].
    + apply N.eqb_neq in Hc. rewrite Hc. reflexivity.
    + rewrite (@opens_tag_deletion (Re.sub tag_pattern) t); auto using andb_false_r.
      * apply sub_subsequence.
      * intros t' ->. apply sub_tag_keeps_gt.
Qed.

(** A string without tags is left as it is. *)
Lemma sub_tag_fixed (s : str) : has_tag s = false -> Re.sub tag_pattern s = s.
Proof.
  induction s as [|c t IH]; [reflexivity|].
  simpl. intros H. apply orb_false_iff in H. destruct H as [Hhead Ht].
  rewrite sub_cons. pose proof (tag_match_cases c t) as Hm.
  destruct (Re.match_here tag_pattern (c :: t)) as [[|n]|]; [contradiction | |].
  - destruct Hm as [-> Ho]. rewrite Ho in Hhead. discriminate.
  - rewrite IH by assumption. reflexivity.
Qed.

(** ** The non-ASCII pattern *)

Lemma non_ascii_class (x : char) :
  Re.class_matches [(0%N, 127%N)] x = negb (is_ascii x).
Proof.
  unfold Re.class_matches, Re.in_range, is_ascii. simpl.
  rewrite orb_false_r. destruct x; reflexivity.
Qed.

Lemma non_ascii_match (s : str) :
  match Re.match_here non_ascii_pattern s with
  | Some n =>
      exists c t m, s = c :: t /\ n = S m /\ is_ascii c = false
                    /\ filter is_ascii t = filter is_ascii (skipn m t)
  | None => match s with [] => True | c :: _ => is_ascii c = true end
  end.
Proof.
  induction s as [|x t IH]; [exact I|].
  cbn [Re.match_here non_ascii_pattern Re.plus_greedy] in *.
  rewrite non_ascii_class.
  destruct (is_ascii x) eqn:Hx; cbn [negb]; [reflexivity|].
  destruct (Re.plus_greedy [(0%N, 127%N)] (fun _ => Some 0) t) as [n|].
  - destruct IH as (c & t' & m & -> & -> & Hc & Hf).
    exists x, (c :: t'), (S m). repeat split; auto.
    simpl. rewrite Hc. assumption.
  - exists x, t, 0. repeat split; auto.
Qed.

(** Removing the runs of non-ASCII characters keeps the ASCII ones. *)
Lemma sub_non_ascii (s : str) : Re.sub non_ascii_pattern s = filter is_ascii s.
Proof.
  induction s as [s IH] using str_length_ind.
  destruct s as [|c t]; [reflexivity|].
  rewrite sub_cons. pose proof (non_ascii_match (c :: t)) as Hm.
  destruct (Re.match_here non_ascii_pattern (c :: t)) as [[|n]|].
  - destruct Hm as (? & ? & ? & _ & [=] & _).
  - destruct Hm as (c' & t' & m & [= <- <-] & [= <-] & Hc & Hf).
    rewrite IH by (simpl; pose proof (length_skipn n t); lia).
    simpl. rewrite Hc. symmetry. assumption.
  - simpl. rewrite Hm. rewrite IH by (simpl; lia). reflexivity.
Qed.

Lemma escape_unfold (x : str) :
  escape_paragraph_text x = filter is_ascii (Re.sub tag_pattern x).
Proof. unfold escape_paragraph_text. apply sub_non_ascii. Qed.

Lemma filter_subsequence {A} (f : A -> bool) (x : list A) :
  subsequence (filter f x) x.
Proof.
  induction x as [|a x IH]; simpl; [constructor|].
  destruct (f a); constructor; assumption.
Qed.

Lemma ascii_only_filter (s : str) : ascii_only (filter is_ascii s).
Proof.
  apply Forall_forall. intros c Hc. apply filter_In in Hc.
  destruct Hc as [_ Hc]. unfold is_ascii in Hc. apply N.leb_le in Hc. lia.
Qed.

Lemma filter_ascii_fixed (s : str) : ascii_only s -> filter is_ascii s = s.
Proof.
  induction 1 as [|c t Hc _ IH]; [reflexivity|].
  simpl. unfold is_ascii at 1.
  destruct (N.leb_spec c 127); [|lia]. rewrite IH. reflexivity.
Qed.

Lemma has_tag_filter_ascii (s : str) :
  has_tag s = false -> has_tag (filter is_ascii s) = false.
Proof.
  induction s as [|c t IH]; [reflexivity|].
  simpl. intros H. apply orb_false_iff in H. destruct H as [Hhead Ht].
  destruct (is_ascii c); [|auto].
  simpl. rewrite (IH Ht), orb_false_r.
  apply andb_false_iff in Hhead. destruct Hhead as [Hc|Ho].
  - rewrite Hc. reflexivity.
  - rewrite (@opens_tag_deletion (filter is_ascii) t); auto using andb_false_r.
    + apply filter_subsequence.
    + intros t' ->. simpl. eauto.
Qed.

(** ** [str.strip] *)

Section StripFacts.

Variable f : char -> bool.

Lemma dropwhile_split (s : str) :
  exists l, s = l ++ dropwhile f s /\ Forall (fun c => f c = true) l.
Proof.
  induction s as [|c t IH].
  - exists []. split; [reflexivity | constructor].
  - simpl. destruct (f c) eqn:Hc.
    + destruct IH as (l & Heq & Hall).
      exists (c :: l). split; [simpl; congruence | constructor; assumption].
    + exists []. split; [reflexivity | constructor].
Qed.

Lemma dropwhile_head (s : str) (c : char) (t : str) :
  dropwhile f s = c :: t -> f c = false.
Proof.
  induction s as [|x s IH]; simpl; [discriminate|].
  destruct (f x) eqn:Hx; [assumption|].
  intros [= <- <-]. assumption.
Qed.

End StripFacts.

Lemma lstrip_split (db : unicode_db) (s : str) :
  exists l, s = l ++ lstrip db s
            /\ Forall (fun c => Py_UNICODE_ISSPACE db c = true) l.
Proof. apply dropwhile_split. Qed.

Lemma rstrip_split (db : unicode_db) (s : str) :
  exists r, s = rstrip db s ++ r
            /\ Forall (fun c => Py_UNICODE_ISSPACE db c = true) r.
Proof.
  destruct (dropwhile_split (Py_UNICODE_ISSPACE db) (rev s)) as (l & Heq & Hall).
  exists (rev l). split.
  - unfold rstrip. rewrite <- rev_app_distr, <- Heq, rev_involutive. reflexivity.
  - apply Forall_rev. assumption.
Qed.

(** [strip] takes whitespace off the two ends and nothing else. *)
Lemma strip_split (db : unicode_db) (s : str) :
  exists l r, s = l ++ strip db s ++ r
              /\ Forall (fun c => Py_UNICODE_ISSPACE db c = true) l
              /\ Forall (fun c => Py_UNICODE_ISSPACE db c = true) r.
Proof.
  destruct (lstrip_split db s) as (l & Hl & Hall_l).
  destruct (rstrip_split db (lstrip db s)) as (r & Hr & Hall_r).
  exists l, r. unfold strip. rewrite <- Hr. auto.
Qed.

Lemma strip_no_trailing (db : unicode_db) (s : str) :
  ~ trailing_space db (strip db s).
Proof.
  intros (t & c & Heq & Hc).
  unfold strip, rstrip in Heq.
  apply (f_equal (@rev char)) in Heq.
  rewrite rev_involutive, rev_app_distr in Heq. simpl in Heq.
  apply dropwhile_head in Heq. congruence.
Qed.

Lemma strip_no_leading (db : unicode_db) (s : str) :
  ~ leading_space db (strip db s).
Proof.
  intros (c & t & Heq & Hc).
  destruct (rstrip_split db (lstrip db s)) as (r & Hr & _).
  fold (strip db s) in Hr. rewrite Heq in Hr. simpl in Hr.
  apply dropwhile_head in Hr. congruence.
Qed.

(** A piece cut out of a string without tags has no tag. *)
Lemma tag_free_infix (l m r : str) : tag_free (l ++ m ++ r) -> tag_free m.
Proof.
  intros Hfree (pre & w & post & -> & Hw). apply Hfree.
  exists (l ++ pre), w, (post ++ r). split; [|assumption].
  repeat rewrite <- app_assoc. reflexivity.
Qed.

(** ** [str.split()] and [str.isupper()] *)

Lemma split_whitespace_from_length (db : unicode_db) (s : str) :
  forall in_word word,
    length (split_whitespace_from db in_word word s)
    = (if in_word then 1 else 0) + count_words_from db (negb in_word) s.
Proof.
  induction s as [|c t IH]; intros in_word word; simpl.
  - destruct in_word; reflexivity.
  - destruct (Py_UNICODE_ISSPACE db c).
    + destruct in_word; simpl; rewrite IH; reflexivity.
    + rewrite IH. destruct in_word; reflexivity.
Qed.

Lemma split_whitespace_length (db : unicode_db) (line : str) :
  length (split_whitespace db line) = count_words db line.
Proof. apply split_whitespace_from_length. Qed.

Lemma case_kind_eqb_eq (a b : case_kind) : case_kind_eqb a b = true <-> a = b.
Proof. destruct a, b; simpl; split; congruence. Qed.

Lemma isupper_loop_spec (db : unicode_db) (s : str) :
  forall seen,
    isupper_loop db seen s = true <->
    (forall c, In c s -> case_of db c <> Lower /\ case_of db c <> Title)
    /\ (seen = true \/ exists c, In c s /\ case_of db c = Upper).
Proof.
  induction s as [|ch t IH]; intros seen; simpl.
  - split.
    + intros ->. split; [intros c [] | left; reflexivity].
    + intros [_ [H | (c & [] & _)]]. assumption.
  - unfold Py_UNICODE_ISLOWER, Py_UNICODE_ISTITLE, Py_UNICODE_ISUPPER.
    destruct (case_of db ch) eqn:Hch; simpl.
    + (* uppercase *)
      destruct seen; simpl; rewrite IH; split.
      * intros [Hall _]. split; [|left; reflexivity].
        intros c [<-|Hc]; [rewrite Hch; split; discriminate | auto].
      * intros [Hall _]. split; [auto | left; reflexivity].
      * intros [Hall _]. split; [|right; exists ch; auto].
        intros c [<-|Hc]; [rewrite Hch; split; discriminate | auto].
      * intros [Hall _]. split; [auto | left; reflexivity].
    + (* lowercase *)
      split; [discriminate|]. intros [Hall _].
      destruct (Hall ch (or_introl eq_refl)) as [H _]. congruence.
    + (* titlecase *)
      split; [discriminate|]. intros [Hall _].
      destruct (Hall ch (or_introl eq_refl)) as [_ H]. congruence.
    + (* no case *)
      rewrite andb_false_r. rewrite IH. split.
      * intros [Hall Hseen]. split.
        -- intros c [<-|Hc]; [rewrite Hch; split; discriminate | auto].
        -- destruct Hseen as [?|(c & Hc & Hup)]; [left; assumption|].
           right. exists c. auto.
      * intros [Hall Hseen]. split; [auto|].
        destruct Hseen as [?|(c & [<-|Hc] & Hup)]; [left; assumption | congruence |].
        right. exists c. auto.
Qed.

(** The answers given before the loop are those the loop would give. *)
Lemma isupper_is_loop (db : unicode_db) (s : str) :
  isupper db s = isupper_loop db false s.
Proof.
  destruct s as [|ch [|c2 t]]; try reflexivity.
  simpl. unfold Py_UNICODE_ISLOWER, Py_UNICODE_ISTITLE, Py_UNICODE_ISUPPER.
  destruct (case_of db ch); reflexivity.
Qed.

Lemma isupper_spec (db : unicode_db) (s : str) :
  isupper db s = true <-> uppercase_line db s.
Proof.
  rewrite isupper_is_loop, isupper_loop_spec. unfold uppercase_line, cased.
  split.
  - intros [Hall [?|(c & Hc & Hup)]]; [discriminate|]. split.
    + exists c. split; [assumption | congruence].
    + intros c' Hc' Hcased. destruct (Hall c' Hc') as [Hl Ht].
      destruct (case_of db c'); congruence.
  - intros [(c & Hc & Hcased) Hall]. split.
    + intros c' Hc'. destruct (case_of db c') eqn:E; split; try discriminate;
        intros _; assert (case_of db c' = Upper) by (apply Hall; congruence);
        congruence.
    + right. exists c. auto.
Qed.

(** ** [str.split(sep)] and [str.join] *)

Lemma split_from_cons (sep cur : str) (c : char) (t : str) :
  split_from sep cur (c :: t) =
  if starts_with sep (c :: t)
  then cur :: split_from sep [] (skipn (length sep - 1) t)
  else split_from sep (cur ++ [c]) t.
Proof.
  simp split_from.
  destruct (starts_with sep (c :: t)); reflexivity.
Qed.

Lemma starts_with_prefix (sep s : str) :
  starts_with sep s = true -> s = sep ++ skipn (length sep) s.
Proof.
  revert s. induction sep as [|a sep IH]; intros s; [reflexivity|].
  destruct s as [|c t]; simpl; [discriminate|].
  intros H. apply andb_true_iff in H. destruct H as [Hac Ht].
  apply N.eqb_eq in Hac. subst c. f_equal. apply IH. assumption.
Qed.

Lemma join_cons (sep x : str) (l : list str) :
  l <> [] -> join sep (x :: l) = x ++ sep ++ join sep l.
Proof. destruct l; [congruence | reflexivity]. Qed.

Lemma split_from_not_nil (sep : str) (s : str) :
  forall cur, split_from sep cur s <> [].
Proof.
  induction s as [|c t IH]; intros cur.
  - simp split_from. discriminate.
  - rewrite split_from_cons. destruct (starts_with sep (c :: t)); [discriminate|].
    apply IH.
Qed.

(** Joining the pieces with the separator gives the string back. *)
Lemma join_split_from (sep : str) (s : str) :
  sep <> [] -> forall cur, join sep (split_from sep cur s) = cur ++ s.
Proof.
  intros Hsep.
  induction s as [s IH] using str_length_ind. intros cur.
  destruct s as [|c t].
  - simp split_from. simpl. rewrite app_nil_r. reflexivity.
  - rewrite split_from_cons. destruct (starts_with sep (c :: t)) eqn:Hst.
    + rewrite join_cons by apply split_from_not_nil.
      rewrite IH by (simpl; pose proof (length_skipn (length sep - 1) t); lia).
      apply starts_with_prefix in Hst.
      destruct sep as [|a sep]; [congruence|].
      simpl in Hst. injection Hst as <- Ht.
      simpl. rewrite Nat.sub_0_r. rewrite Ht at 2.
      reflexivity.
    + rewrite IH by (simpl; lia). rewrite <- app_assoc. reflexivity.
Qed.

Lemma join_split (s sep : str) : sep <> [] -> join sep (split s sep) = s.
Proof. intros Hsep. unfold split. rewrite join_split_from; auto. Qed.

(** ** The composer *)

Lemma fold_left_appends {A B} (f : list B -> A -> list B) (l : list A) :
  (forall acc a, f acc a = acc ++ f [] a) ->
  forall acc, fold_left f l acc = acc ++ concat (map (f []) l).
Proof.
  intros Hf. induction l as [|a l IH]; intros acc; simpl.
  - rewrite app_nil_r. reflexivity.
  - rewrite IH, Hf, <- app_assoc. reflexivity.
Qed.

Lemma add_line_app (db : unicode_db) (content : list flowable) (line : str) :
  add_line db content line = content ++ add_line db [] line.
Proof.
  unfold add_line. simpl.
  destruct (is_title db (escape_paragraph_text line)); reflexivity.
Qed.

Lemma add_paragraph_app (db : unicode_db) (content : list flowable) (p : str) :
  add_paragraph db content p = content ++ add_paragraph db [] p.
Proof.
  unfold add_paragraph. cbn zeta.
  rewrite (fold_left_appends (add_line db) _ (add_line_app db) content).
  rewrite (fold_left_appends (add_line db) _ (add_line_app db) []).
  simpl. rewrite <- app_assoc. reflexivity.
Qed.

Lemma add_page_app (db : unicode_db) (content : list flowable) (text : str) :
  add_page db content text = content ++ add_page db [] text.
Proof.
  unfold add_page. cbn zeta.
  rewrite (fold_left_appends (add_paragraph db) _ (add_paragraph_app db) content).
  rewrite (fold_left_appends (add_paragraph db) _ (add_paragraph_app db) []).
  simpl. rewrite <- app_assoc. reflexivity.
Qed.

Lemma count_page_breaks_app (a b : list flowable) :
  count_page_breaks (a ++ b) = count_page_breaks a + count_page_breaks b.
Proof. unfold count_page_breaks. rewrite filter_app, length_app. reflexivity. Qed.

Lemma count_page_breaks_concat (l : list (list flowable)) (n : nat) :
  Forall (fun c => count_page_breaks c = n) l ->
  count_page_breaks (concat l) = n * length l.
Proof.
  induction 1 as [|c l Hc _ IH]; simpl.
  - unfold count_page_breaks. simpl. lia.
  - rewrite count_page_breaks_app, Hc, IH. lia.
Qed.

Lemma add_line_no_break (db : unicode_db) (line : str) :
  count_page_breaks (add_line db [] line) = 0.
Proof.
  unfold add_line. simpl.
  destruct (is_title db (escape_paragraph_text line)); reflexivity.
Qed.

Lemma add_paragraph_no_break (db : unicode_db) (p : str) :
  count_page_breaks (add_paragraph db [] p) = 0.
Proof.
  unfold add_paragraph. cbn zeta.
  rewrite (fold_left_appends (add_line db) _ (add_line_app db) []). simpl.
  rewrite count_page_breaks_app.
  rewrite (count_page_breaks_concat (n := 0)); [reflexivity|].
  apply Forall_map, Forall_forall. intros line _. apply add_line_no_break.
Qed.

(** The section of a page: what its paragraphs add, then one page break. *)
Lemma add_page_shape (db : unicode_db) (text : str) :
  exists body,
    add_page db [] text = body ++ [PageBreak] /\ count_page_breaks body = 0.
Proof.
  unfold add_page. cbn zeta.
  exists (fold_left (add_paragraph db) (split text [NL; NL]) []).
  split; [reflexivity|].
  rewrite (fold_left_appends (add_paragraph db) _ (add_paragraph_app db) []). simpl.
  rewrite (count_page_breaks_concat (n := 0)); [reflexivity|].
  apply Forall_map, Forall_forall. intros p _. apply add_paragraph_no_break.
Qed.

Lemma add_page_one_break (db : unicode_db) (text : str) :
  count_page_breaks (add_page db [] text) = 1.
Proof.
  destruct (add_page_shape db text) as (body & -> & Hbody).
  rewrite count_page_breaks_app, Hbody. reflexivity.
Qed.

Lemma fold_add_page (db : unicode_db) (texts : list str) (content : list flowable) :
  fold_left (add_page db) texts content
  = content ++ concat (map (add_page db []) texts).
Proof. apply fold_left_appends. apply add_page_app. Qed.

(** ** The loops and the layout

    Each loop raises what the constructor of [Paragraph] raises for the
    first line it refuses, and otherwise returns the layout. *)

Lemma first_rejection_app (db : unicode_db) (env : engines) (l1 l2 : list str) :
  first_rejection db env (l1 ++ l2) =
  match first_rejection db env l1 with
  | Some e => Some e
  | None => first_rejection db env l2
  end.
Proof.
  induction l1 as [|line l1 IH]; [reflexivity|].
  simpl. destruct (rejection db env line); [reflexivity | exact IH].
Qed.

Lemma rejection_none_iff (db : unicode_db) (env : engines) (line : str) :
  rejection db env line = None <-> accepted db env line.
Proof.
  unfold rejection, accepted. cbn zeta.
  destruct (para_parse env _ _) as [[]|e]; split; congruence.
Qed.

Lemma first_rejection_none_iff (db : unicode_db) (env : engines) (lines : list str) :
  first_rejection db env lines = None <-> Forall (accepted db env) lines.
Proof.
  induction lines as [|line lines IH]; simpl.
  - split; [constructor | reflexivity].
  - destruct (rejection db env line) as [e|] eqn:Hline.
    + split; [discriminate|]. intros Hall. inversion Hall as [|? ? Hacc _]; subst.
      apply rejection_none_iff in Hacc. congruence.
    + rewrite IH. split.
      * intros Hall. constructor; [apply rejection_none_iff|]; assumption.
      * intros Hall. inversion Hall. assumption.
Qed.

Lemma line_step_run (db : unicode_db) (env : engines)
      (content : list flowable) (line : str) (out : list str) :
  line_step db env content line out =
  match rejection db env line with
  | Some e => (Raise e, out)
  | None => (Return (add_line db content line), out)
  end.
Proof.
  unfold line_step, add_line, rejection, line_style, make_paragraph. cbn zeta.
  unfold bind, lift, ret.
  destruct (is_title db (escape_paragraph_text line));
    destruct (para_parse env _ _); reflexivity.
Qed.

Lemma lines_loop_run (db : unicode_db) (env : engines) (lines : list str) :
  forall content out,
    lines_loop db env lines content out =
    match first_rejection db env lines with
    | Some e => (Raise e, out)
    | None => (Return (fold_left (add_line db) lines content), out)
    end.
Proof.
  induction lines as [|line lines IH]; intros content out; [reflexivity|].
  simpl. unfold bind. rewrite line_step_run.
  destruct (rejection db env line); [reflexivity | apply IH].
Qed.

Lemma paragraph_step_run (db : unicode_db) (env : engines)
      (content : list flowable) (paragraph : str) (out : list str) :
  paragraph_step db env content paragraph out =
  match first_rejection db env (split paragraph [NL]) with
  | Some e => (Raise e, out)
  | None => (Return (add_paragraph db content paragraph), out)
  end.
Proof.
  unfold paragraph_step, add_paragraph. cbn zeta.
  unfold bind, ret. rewrite lines_loop_run.
  destruct (first_rejection db env (split paragraph [NL])); reflexivity.
Qed.

Lemma paragraphs_loop_run (db : unicode_db) (env : engines) (ps : list str) :
  forall content out,
    paragraphs_loop db env ps content out =
    match first_rejection db env
            (concat (map (fun paragraph => split paragraph [NL]) ps)) with
    | Some e => (Raise e, out)
    | None => (Return (fold_left (add_paragraph db) ps content), out)
    end.
Proof.
  induction ps as [|p ps IH]; intros content out; [reflexivity|].
  simpl. unfold bind. rewrite paragraph_step_run, first_rejection_app.
  destruct (first_rejection db env (split p [NL])); [reflexivity | apply IH].
Qed.

(** The text of a page is laid out as [add_page] says, unless the
    constructor of [Paragraph] refuses one of its lines. *)
Lemma page_step_run (db : unicode_db) (env : engines)
      (content : list flowable) (text : str) (out : list str) :
  page_step db env content text out =
  match first_rejection db env (lines_of text) with
  | Some e => (Raise e, out)
  | None => (Return (add_page db content text), out)
  end.
Proof.
  unfold page_step, add_page, lines_of. cbn zeta.
  unfold bind, ret. rewrite paragraphs_loop_run.
  destruct (first_rejection db env _); reflexivity.
Qed.

Lemma page_step_accepted (db : unicode_db) (env : engines)
      (content : list flowable) (text : str) (out : list str) :
  page_accepted db env text ->
  page_step db env content text out = (Return (add_page db content text), out).
Proof.
  intros Hacc. rewrite page_step_run.
  apply first_rejection_none_iff in Hacc. rewrite Hacc. reflexivity.
Qed.

Lemma pages_loop_cons (db : unicode_db) (env : engines)
      (img : image env) (rest : list (image env))
      (content : list flowable) (out : list str) :
  pages_loop db env (img :: rest) content out =
  match extract_text_from_image db env img with
  | Raise e => (Raise e, out)
  | Return text =>
      match first_rejection db env (lines_of text) with
      | Some e => (Raise e, out)
      | None => pages_loop db env rest (add_page db content text) out
      end
  end.
Proof.
  simpl. unfold bind at 1. unfold lift.
  destruct (extract_text_from_image db env img) as [text|e]; [|reflexivity].
  unfold bind. rewrite page_step_run.
  destruct (first_rejection db env (lines_of text)); reflexivity.
Qed.

Lemma pages_loop_returns (db : unicode_db) (env : engines)
      (images : list (image env)) (texts : list str) :
  Forall2 (fun img t => extract_text_from_image db env img = Return t)
          images texts ->
  Forall (page_accepted db env) texts ->
  forall content out,
    pages_loop db env images content out
    = (Return (fold_left (add_page db) texts content), out).
Proof.
  induction 1 as [|img t images texts Himg _ IH]; intros Hacc content out.
  - reflexivity.
  - inversion Hacc as [|? ? Ht Hrest]; subst.
    rewrite pages_loop_cons, Himg.
    apply first_rejection_none_iff in Ht. rewrite Ht. apply IH. assumption.
Qed.

Lemma pages_loop_inv (db : unicode_db) (env : engines)
      (images : list (image env)) :
  forall content out content' out',
    pages_loop db env images content out = (Return content', out') ->
    out' = out /\
    exists texts,
      Forall2 (fun img t => extract_text_from_image db env img = Return t)
              images texts
      /\ Forall (page_accepted db env) texts
      /\ content' = fold_left (add_page db) texts content.
Proof.
  induction images as [|img images IH]; intros content out content' out'.
  - simpl. unfold ret. intros [= <- <-]. split; [reflexivity|].
    exists []. repeat split; constructor.
  - rewrite pages_loop_cons.
    destruct (extract_text_from_image db env img) as [text|e] eqn:Himg;
      [|discriminate].
    destruct (first_rejection db env (lines_of text)) eqn:Hacc; [discriminate|].
    intros H. apply IH in H. destruct H as (-> & texts & Hall & Haccs & ->).
    split; [reflexivity|].
    exists (text :: texts). repeat split.
    + constructor; assumption.
    + constructor; [apply first_rejection_none_iff|]; assumption.
Qed.

(** ** Removing the tags, from the left *)

Lemma skipn_past (body : str) (x : char) (b : str) :
  skipn (S (length body)) (body ++ x :: b) = b.
Proof. induction body as [|y body IH]; [reflexivity | exact IH]. Qed.

Lemma sub_tag_at_tag (body b : str) :
  body <> [] -> Forall (fun c => c <> GT) body ->
  Re.sub tag_pattern (LT :: body ++ GT :: b) = Re.sub tag_pattern b.
Proof.
  intros Hne Hall. rewrite sub_cons, match_tag_cons.
  cbn [N.eqb LT Pos.eqb].
  rewrite plus_greedy_tag_length by assumption. cbn [option_map].
  rewrite skipn_past. reflexivity.
Qed.

Lemma no_match_no_tag_at_head (c : char) (t : str) :
  Re.match_here tag_pattern (c :: t) = None ->
  forall w post, c :: t = w ++ post -> ~ matches_tag w.
Proof.
  intros Hnone w post Heq (body & -> & Hne & Hall).
  pose proof (tag_match_cases c t) as Hm. rewrite Hnone in Hm.
  simpl in Heq. injection Heq as -> ->.
  destruct Hm as [Hc|Ho]; [congruence|].
  rewrite <- app_assoc in Ho. simpl in Ho.
  assert (opens_tag (body ++ GT :: post) = true) as Ho'
    by (apply opens_tag_iff; eauto).
  congruence.
Qed.

Lemma tags_removed_cons (c : char) (t r : str) :
  (forall w post, c :: t = w ++ post -> ~ matches_tag w) ->
  tags_removed t r -> tags_removed (c :: t) (c :: r).
Proof.
  intros Hhead Hrem.
  destruct Hrem as [t Hfree | a w rest r Hw Hleft Hrem].
  - apply tags_removed_none.
    intros (pre & w & post & Heq & Hw). destruct pre as [|x pre].
    + apply (Hhead w post); assumption.
    + simpl in Heq. injection Heq as _ Heq.
      apply Hfree. exists pre, w, post. auto.
  - apply (@tags_removed_first (c :: a) w rest r Hw); [|assumption].
    intros pre w' post Heq Hw'. destruct pre as [|x pre].
    + exfalso. apply (Hhead w' post); assumption.
    + simpl in Heq. injection Heq as _ Heq.
      simpl. apply le_n_S. eapply Hleft; eassumption.
Qed.

(** [re.sub] removes the tags from the left. *)
Lemma sub_tags_removed (s : str) : tags_removed s (Re.sub tag_pattern s).
Proof.
  induction s as [s IH] using str_length_ind.
  destruct s as [|c t].
  - simp sub. apply tags_removed_none.
    apply tag_free_iff. reflexivity.
  - rewrite sub_cons. pose proof (tag_match_cases c t) as Hm.
    pose proof (match_tag_cons c t) as Hcons.
    destruct (Re.match_here tag_pattern (c :: t)) as [[|n]|] eqn:Hmatch;
      [contradiction | |].
    + destruct Hm as [-> _]. cbn [N.eqb LT Pos.eqb] in Hcons.
      destruct (Re.plus_greedy [(GT, GT)] (Re.match_here [Re.Lit GT]) t)
        as [m|] eqn:Hplus; [|discriminate].
      simpl in Hcons. injection Hcons as <-.
      apply plus_greedy_tag_inv in Hplus.
      destruct Hplus as (body & rest & -> & Hne & Hall & ->).
      rewrite skipn_past.
      change (LT :: body ++ GT :: rest) with ([] ++ (LT :: body ++ GT :: rest)).
      replace (LT :: body ++ GT :: rest) with ((LT :: body ++ [GT]) ++ rest)
        by (simpl; rewrite <- app_assoc; reflexivity).
      change (Re.sub tag_pattern rest) with ([] ++ Re.sub tag_pattern rest).
      apply tags_removed_first.
      * exists body. auto.
      * intros pre w post _ _. simpl. lia.
      * apply IH. simpl. rewrite length_app. simpl. lia.
    + apply tags_removed_cons.
      * apply no_match_no_tag_at_head. assumption.
      * apply IH. simpl. lia.
Qed.

Lemma sub_tag_before_first (a x : str) :
  no_tag_starts_before (length a) (a ++ x) ->
  Re.sub tag_pattern (a ++ x) = a ++ Re.sub tag_pattern x.
Proof.
  induction a as [|c a IH]; intros Hleft; [reflexivity|].
  simpl. rewrite sub_cons. pose proof (tag_match_cases c (a ++ x)) as Hm.
  destruct (Re.match_here tag_pattern (c :: a ++ x)) as [[|n]|].
  - contradiction.
  - destruct Hm as [-> Ho]. apply opens_tag_iff in Ho.
    destruct Ho as (body & rest & Heq & Hne & Hall).
    assert (S (length a) <= 0) as Habs.
    { apply (Hleft [] (LT :: body ++ [GT]) rest).
      - simpl. rewrite Heq, <- app_assoc. reflexivity.
      - exists body. auto. }
    lia.
  - rewrite IH; [reflexivity|].
    intros pre w post Heq Hw.
    assert (S (length a) <= length (c :: pre)) as Hle.
    { apply (Hleft (c :: pre) w post); [simpl; congruence | assumption]. }
    simpl in Hle. lia.
Qed.

(** Nothing else than the result of [re.sub] is the string without its
    tags. *)
Lemma tags_removed_sub (s r : str) :
  tags_removed s r -> r = Re.sub tag_pattern s.
Proof.
  induction 1 as [s Hfree | a w rest r Hw Hleft _ IH].
  - symmetry. apply sub_tag_fixed, tag_free_iff. assumption.
  - rewrite sub_tag_before_first by assumption.
    destruct Hw as (body & -> & Hne & Hall).
    replace ((LT :: body ++ [GT]) ++ rest) with (LT :: body ++ GT :: rest)
      by (simpl; rewrite <- app_assoc; reflexivity).
    rewrite sub_tag_at_tag by assumption. congruence.
Qed.

(** ** Content units *)

Lemma escape_ascii_only (x : str) : ascii_only (escape_paragraph_text x).
Proof. rewrite escape_unfold. apply ascii_only_filter. Qed.

Lemma escape_has_no_tag (x : str) : has_tag (escape_paragraph_text x) = false.
Proof. rewrite escape_unfold. apply has_tag_filter_ascii, has_tag_sub. Qed.

Lemma escape_is_subsequence (x : str) : subsequence (escape_paragraph_text x) x.
Proof.
  rewrite escape_unfold.
  eapply subsequence_trans; [apply filter_subsequence | apply sub_subsequence].
Qed.

Lemma Forall_concat_map {A B} (P : B -> Prop) (f : A -> list B) (l : list A) :
  (forall a, Forall P (f a)) -> Forall P (concat (map f l)).
Proof.
  intros Hf. induction l as [|a l IH]; simpl; [constructor|].
  apply Forall_app. auto.
Qed.

Lemma add_line_units (db : unicode_db) (line : str) :
  Forall unit_ok (add_line db [] line).
Proof.
  assert (unit_ok_escaped : forall st,
             unit_ok (Paragraph (escape_paragraph_text line) st)).
  { intros st. split; [apply escape_ascii_only|].
    apply tag_free_iff, escape_has_no_tag. }
  unfold add_line. simpl.
  destruct (is_title db (escape_paragraph_text line));
    (apply Forall_cons; [apply unit_ok_escaped | apply Forall_nil]).
Qed.

Lemma add_paragraph_units (db : unicode_db) (p : str) :
  Forall unit_ok (add_paragraph db [] p).
Proof.
  unfold add_paragraph. cbn zeta.
  rewrite (fold_left_appends (add_line db) _ (add_line_app db) []). simpl.
  apply Forall_app. split.
  - apply Forall_concat_map. apply add_line_units.
  - repeat constructor.
Qed.

Lemma add_page_units (db : unicode_db) (text : str) :
  Forall unit_ok (add_page db [] text).
Proof.
  unfold add_page. cbn zeta.
  rewrite (fold_left_appends (add_paragraph db) _ (add_paragraph_app db) []). simpl.
  apply Forall_app. split.
  - apply Forall_concat_map. apply add_paragraph_units.
  - repeat constructor.
Qed.

(** At a concrete page the lines are checked one after the other. *)
Ltac page_is_accepted :=
  unfold page_accepted; apply first_rejection_none_iff; reflexivity.

Ltac pages_are_accepted :=
  repeat (apply Forall_cons; [page_is_accepted|]); apply Forall_nil.

(** * The claims *)

(** C1. For every string [x], [escape_paragraph_text x] has no character
    of ordinal 128 or more and no substring of the shape [<[^>]+>]; hence
    the text of every paragraph in the content built by the loop over the
    pages is ASCII-only and free of tags. *)
Theorem escape_ascii_and_tag_free :
  (forall x : str,
      ascii_only (escape_paragraph_text x) /\ tag_free (escape_paragraph_text x))
  /\ (forall (db : unicode_db) (env : engines) (images : list (image env))
             (out : list str),
         match pages_loop db env images [] out with
         | (Return content, _) => Forall unit_ok content
         | (Raise _, _) => True
         end).
Proof.
  split.
  - intros x. split; [apply escape_ascii_only|].
    apply tag_free_iff, escape_has_no_tag.
  - intros db env images out.
    destruct (pages_loop db env images [] out) as [[content|e] out'] eqn:Hloop;
      [|exact I].
    apply pages_loop_inv in Hloop. destruct Hloop as (_ & texts & _ & _ & ->).
    rewrite fold_add_page. simpl.
    apply Forall_concat_map. apply add_page_units.
Qed.

(** C2. [is_title line] is true if, and only if, the line is uppercase in
    the sense of [isupper] (it has a cased character and all its cased
    characters are uppercase) and it has strictly fewer than 10
    whitespace-separated words; the empty line is not a title. *)
Theorem is_title_iff (db : unicode_db) :
  (forall line : str,
      is_title db line = true <->
      uppercase_line db line /\ count_words db line < 10)
  /\ is_title db [] = false.
Proof.
  split; [|reflexivity].
  intros line. unfold is_title.
  rewrite andb_true_iff, isupper_spec, Nat.ltb_lt, split_whitespace_length.
  reflexivity.
Qed.

(** C3. [escape_paragraph_text] is idempotent. *)
Theorem escape_idempotent (x : str) :
  escape_paragraph_text (escape_paragraph_text x) = escape_paragraph_text x.
Proof.
  rewrite (escape_unfold (escape_paragraph_text x)).
  rewrite sub_tag_fixed by apply escape_has_no_tag.
  apply filter_ascii_fixed, escape_ascii_only.
Qed.

(** C4. When the source document exists and rasterizes to the images
    [images], the texts [texts] are extracted from them and the constructor
    of [Paragraph] accepts their lines, the content handed to the document
    builder is the sections of the pages one after the other, in the order
    of the pages; each section is what the paragraphs of the page add,
    without a page break, followed by one page break; so the content has
    as many page breaks as there are images. *)
Theorem page_breaks_per_page (db : unicode_db) (env : engines) (path : str)
        (images : list (image env)) (texts : list str) (out : list str) :
  os_path_exists env path = true ->
  pdf_to_images env path = Return images ->
  Forall2 (fun img t => extract_text_from_image db env img = Return t)
          images texts ->
  Forall (page_accepted db env) texts ->
  exists content,
    pages_loop db env images [] out = (Return content, out)
    /\ pdf_to_single_output_pdf db env path out
       = (match doc_build env (output_template) content with
          | Return pdf => Return (Some pdf)
          | Raise e => Raise e
          end, out)
    /\ content = concat (map (add_page db []) texts)
    /\ (forall t, exists body,
           add_page db [] t = body ++ [PageBreak] /\ count_page_breaks body = 0)
    /\ count_page_breaks content = length images.
Proof.
  intros Hexists Hraster Htexts Hacc.
  pose proof (@pages_loop_returns db env images texts Htexts Hacc [] out) as Hloop.
  rewrite fold_add_page in Hloop. simpl in Hloop.
  exists (concat (map (add_page db []) texts)).
  split; [assumption|]. split; [|split; [reflexivity|split]].
  - unfold pdf_to_single_output_pdf. rewrite Hexists. simpl.
    unfold bind at 1. unfold lift at 1. rewrite Hraster.
    unfold bind at 1. rewrite Hloop.
    unfold bind, lift, ret.
    destruct (doc_build env output_template _); reflexivity.
  - intros t. apply add_page_shape.
  - rewrite (count_page_breaks_concat (n := 1)).
    + rewrite length_map, Nat.mul_1_l. symmetry.
      eapply Forall2_length; eassumption.
    + apply Forall_map, Forall_forall. intros t _. apply add_page_one_break.
Qed.

(** C5. For a path that does not exist, [pdf_to_single_output_pdf] prints
    one line on the console, returns [None] and raises nothing. *)
Theorem missing_input_returns_none (db : unicode_db) (env : engines)
        (path : str) (out : list str) :
  os_path_exists env path = false ->
  pdf_to_single_output_pdf db env path out
  = (Return None, out ++ [missing_file_message path]).
Proof.
  intros Hmissing. unfold pdf_to_single_output_pdf.
  rewrite Hmissing. reflexivity.
Qed.

(** C6. [clean_text] removes the tags and trims whitespace at the two
    ends of the whole string only.  The text without its tags, which is
    the text with every tag cut out from the left and nothing else, is the
    result between two runs of whitespace; the result has no tag and
    neither starts nor ends with whitespace. *)
Theorem clean_text_no_tag_trimmed (db : unicode_db) (text : str) :
  exists stripped,
    (forall r, tags_removed text r <-> r = stripped)
    /\ tag_free stripped
    /\ (exists l r,
           stripped = l ++ clean_text db text ++ r
           /\ Forall (fun c => Py_UNICODE_ISSPACE db c = true) l
           /\ Forall (fun c => Py_UNICODE_ISSPACE db c = true) r)
    /\ tag_free (clean_text db text)
    /\ ~ leading_space db (clean_text db text)
    /\ ~ trailing_space db (clean_text db text).
Proof.
  exists (Re.sub tag_pattern text).
  assert (Hfree : tag_free (Re.sub tag_pattern text))
    by apply tag_free_iff, has_tag_sub.
  destruct (strip_split db (Re.sub tag_pattern text)) as (l & r & Heq & Hl & Hr).
  fold (clean_text db text) in Heq.
  split; [|split; [assumption|split; [eauto|split]]].
  - intros r'. split; [apply tags_removed_sub|].
    intros ->. apply sub_tags_removed.
  - rewrite Heq in Hfree. eapply tag_free_infix. eassumption.
  - split; [apply strip_no_leading | apply strip_no_trailing].
Qed.

(** C7. Splitting a page text into paragraphs on ["\n\n"] and every
    paragraph into lines on ["\n"] loses nothing: joining the lines of
    every paragraph with ["\n"] and the paragraphs with ["\n\n"] gives the
    text back. *)
Theorem paragraphs_lines_round_trip (t : str) :
  join [NL; NL]
       (map (fun paragraph => join [NL] (split paragraph [NL])) (split t [NL; NL]))
  = t.
Proof.
  rewrite (map_ext _ (fun paragraph => paragraph)).
  - rewrite map_id. apply join_split. discriminate.
  - intros paragraph. apply join_split. discriminate.
Qed.

(** C8, as amended. For a single page whose extracted text is
    ["TITLE HERE\n\nBody text line one\nBody text line two"], the content
    is the title-styled paragraph "TITLE HERE", a spacer, the two
    normal-styled paragraphs, a second spacer, and a page break: the loop
    returns this content when the constructor of [Paragraph] accepts the
    three lines, and it returns no other content. *)
Theorem sample_page_content (db : unicode_db) (env : engines)
        (img : image env) (out : list str) :
  extract_text_from_image db env img = Return sample_text ->
  (page_accepted db env sample_text ->
   pages_loop db env [img] [] out = (Return sample_content, out))
  /\ (forall content out',
         pages_loop db env [img] [] out = (Return content, out') ->
         content = sample_content).
Proof.
  intros Himg. split.
  - intros Hacc.
    rewrite (@pages_loop_returns db env [img] [sample_text]).
    + reflexivity.
    + constructor; [assumption | constructor].
    + constructor; [assumption | constructor].
  - intros content out' Hloop.
    apply pages_loop_inv in Hloop. destruct Hloop as (_ & texts & Htexts & _ & ->).
    inversion Htexts as [|? t ? ts Ht Hts]; subst. inversion Hts; subst.
    rewrite Himg in Ht. injection Ht as <-. reflexivity.
Qed.

(** C8, as stated: the content listed in the claim leaves out the spacer
    that follows the second paragraph unit, so it is not the content the
    loop builds. *)
Lemma sample_page_not_as_stated :
  extract_text_from_image latin1_db sample_env sample_text = Return sample_text
  /\ page_accepted latin1_db sample_env sample_text
  /\ pages_loop latin1_db sample_env [sample_text] [] []
     <> (Return sample_content_as_stated, []).
Proof.
  split; [reflexivity|]. split; [page_is_accepted|].
  intros H. vm_compute in H. discriminate H.
Qed.

(** C9. [escape_paragraph_text x] is a subsequence of [x]: characters are
    deleted, none is inserted, replaced or moved; so the result is not
    longer than [x]. *)
Theorem escape_subsequence (x : str) :
  subsequence (escape_paragraph_text x) x
  /\ length (escape_paragraph_text x) <= length x.
Proof.
  split; [apply escape_is_subsequence|].
  apply subsequence_length, escape_is_subsequence.
Qed.

(** C10. A page whose extracted text is empty is not skipped.  In a
    document whose pages are all extracted and laid out, the constructor of
    [Paragraph] accepting the empty text, the content the loop returns
    holds for the blank page, between the sections of the pages before it
    and of the pages after it, one normal-styled empty paragraph, one
    spacer of 0.2 inch and one page break; the empty line is not a
    title. *)
Theorem blank_page_section (db : unicode_db) (env : engines)
        (pre : list (image env)) (img : image env) (post : list (image env))
        (texts_pre texts_post : list str)
        (content : list flowable) (out : list str) :
  Forall2 (fun i t => extract_text_from_image db env i = Return t) pre texts_pre ->
  Forall (page_accepted db env) texts_pre ->
  extract_text_from_image db env img = Return [] ->
  para_parse env [] normal_style = Return tt ->
  Forall2 (fun i t => extract_text_from_image db env i = Return t) post texts_post ->
  Forall (page_accepted db env) texts_post ->
  pages_loop db env (pre ++ img :: post) content out
  = (Return (content
             ++ concat (map (add_page db []) texts_pre)
             ++ [Paragraph [] normal_style;
                 Spacer 1 ((2 # 10) * inch);
                 PageBreak]
             ++ concat (map (add_page db []) texts_post)), out)
  /\ is_title db [] = false.
Proof.
  intros Hpre Hacc_pre Himg Hempty Hpost Hacc_post. split; [|reflexivity].
  rewrite (@pages_loop_returns db env (pre ++ img :: post)
                               (texts_pre ++ [] :: texts_post)).
  - rewrite fold_add_page, map_app, concat_app. reflexivity.
  - apply Forall2_app; [assumption|]. constructor; assumption.
  - apply Forall_app. split; [assumption|]. constructor; [|assumption].
    constructor; [exact Hempty | constructor].
Qed.

(** * The claims at concrete inputs *)

(** C4 on a document of two pages. *)
Lemma page_breaks_per_page_witness :
  os_path_exists scan_env scan_path = true
  /\ pdf_to_images scan_env scan_path = Return scan_pages
  /\ exists content,
      pages_loop latin1_db scan_env scan_pages [] [] = (Return content, [])
      /\ pdf_to_single_output_pdf latin1_db scan_env scan_path []
         = (match doc_build scan_env output_template content with
            | Return pdf => Return (Some pdf)
            | Raise e => Raise e
            end, [])
      /\ content
         = concat (map (add_page latin1_db [])
                       (map (clean_text latin1_db) scan_pages))
      /\ (forall t, exists body,
             add_page latin1_db [] t = body ++ [PageBreak]
             /\ count_page_breaks body = 0)
      /\ count_page_breaks content = 2.
Proof.
  split; [reflexivity|]. split; [reflexivity|].
  apply (@page_breaks_per_page latin1_db scan_env scan_path scan_pages
                               (map (clean_text latin1_db) scan_pages) []).
  - reflexivity.
  - reflexivity.
  - repeat constructor.
  - pages_are_accepted.
Defined.

(** C5 on a path that is not in the file system. *)
Lemma missing_input_returns_none_witness :
  os_path_exists scan_env (py "missing.pdf") = false
  /\ pdf_to_single_output_pdf latin1_db scan_env (py "missing.pdf") []
     = (Return None, [missing_file_message (py "missing.pdf")]).
Proof.
  split; [reflexivity|].
  apply (@missing_input_returns_none latin1_db scan_env (py "missing.pdf") []).
  reflexivity.
Defined.

(** C8, as amended, on the page of the example. *)
Lemma sample_page_content_witness :
  extract_text_from_image latin1_db sample_env sample_text = Return sample_text
  /\ page_accepted latin1_db sample_env sample_text
  /\ pages_loop latin1_db sample_env [sample_text] [] []
     = (Return sample_content, []).
Proof.
  split; [reflexivity|].
  assert (Hacc : page_accepted latin1_db sample_env sample_text)
    by page_is_accepted.
  split; [exact Hacc|].
  exact (proj1 (@sample_page_content latin1_db sample_env sample_text []
                                     eq_refl) Hacc).
Defined.

(** C10 on a document of three pages, the second one blank. *)
Lemma blank_page_section_witness :
  extract_text_from_image latin1_db gap_env [] = Return []
  /\ para_parse gap_env [] normal_style = Return tt
  /\ pages_loop latin1_db gap_env ([py "ONE"] ++ [] :: [py "three"]) [] []
     = (Return ([]
                ++ concat (map (add_page latin1_db []) [py "ONE"])
                ++ [Paragraph [] normal_style;
                    Spacer 1 ((2 # 10) * inch);
                    PageBreak]
                ++ concat (map (add_page latin1_db []) [py "three"])), [])
  /\ is_title latin1_db [] = false.
Proof.
  split; [reflexivity|]. split; [reflexivity|].
  apply (@blank_page_section latin1_db gap_env [py "ONE"] [] [py "three"]
                             [py "ONE"] [py "three"] [] []).
  - repeat constructor.
  - pages_are_accepted.
  - reflexivity.
  - reflexivity.
  - repeat constructor.
  - pages_are_accepted.
Defined.

(** * Further properties of the conversion *)

Lemma pages_loop_console (db : unicode_db) (env : engines)
      (images : list (image env)) :
  forall content out, snd (pages_loop db env images content out) = out.
Proof.
  induction images as [|img images IH]; intros content out; [reflexivity|].
  rewrite pages_loop_cons.
  destruct (extract_text_from_image db env img) as [text|e]; [|reflexivity].
  destruct (first_rejection db env (lines_of text)); [reflexivity | apply IH].
Qed.

Lemma pdf_existing (db : unicode_db) (env : engines) (path : str) (out : list str) :
  os_path_exists env path = true ->
  pdf_to_single_output_pdf db env path out =
  match pdf_to_images env path with
  | Raise e => (Raise e, out)
  | Return images =>
      match pages_loop db env images [] out with
      | (Raise e, out') => (Raise e, out')
      | (Return content, out') =>
          match doc_build env output_template content with
          | Return pdf => (Return (Some pdf), out')
          | Raise e => (Raise e, out')
          end
      end
  end.
Proof.
  intros Hexists. unfold pdf_to_single_output_pdf. rewrite Hexists. simpl.
  unfold bind, lift, ret.
  destruct (pdf_to_images env path) as [images|e]; [|reflexivity].
  destruct (pages_loop db env images [] out) as [[content|e] out']; [|reflexivity].
  destruct (doc_build env output_template content); reflexivity.
Qed.

(** The first page whose text cannot be extracted stops the loop. *)
Lemma pages_loop_raises (db : unicode_db) (env : engines)
      (pre : list (image env)) (texts : list str) :
  Forall2 (fun img t => extract_text_from_image db env img = Return t) pre texts ->
  Forall (page_accepted db env) texts ->
  forall img post e content out,
    extract_text_from_image db env img = Raise e ->
    pages_loop db env (pre ++ img :: post) content out = (Raise e, out).
Proof.
  induction 1 as [|img0 t pre texts Himg0 _ IH];
    intros Hacc img post e content out Himg.
  - simpl app. rewrite pages_loop_cons, Himg. reflexivity.
  - inversion Hacc as [|? ? Ht Hrest]; subst.
    simpl app. rewrite pages_loop_cons, Himg0.
    apply first_rejection_none_iff in Ht. rewrite Ht.
    apply IH; assumption.
Qed.

(** So does the first page with a line that [Paragraph] refuses. *)
Lemma pages_loop_rejects (db : unicode_db) (env : engines)
      (pre : list (image env)) (texts : list str) :
  Forall2 (fun img t => extract_text_from_image db env img = Return t) pre texts ->
  Forall (page_accepted db env) texts ->
  forall img post text e content out,
    extract_text_from_image db env img = Return text ->
    first_rejection db env (lines_of text) = Some e ->
    pages_loop db env (pre ++ img :: post) content out = (Raise e, out).
Proof.
  induction 1 as [|img0 t pre texts Himg0 _ IH];
    intros Hacc img post text e content out Himg Hrej.
  - simpl app. rewrite pages_loop_cons, Himg, Hrej. reflexivity.
  - inversion Hacc as [|? ? Ht Hrest]; subst.
    simpl app. rewrite pages_loop_cons, Himg0.
    apply first_rejection_none_iff in Ht. rewrite Ht.
    eapply IH; eassumption.
Qed.

Lemma pdf_none_iff (db : unicode_db) (env : engines) (path : str) (out : list str) :
  fst (pdf_to_single_output_pdf db env path out) = Return None
  <-> os_path_exists env path = false.
Proof.
  destruct (os_path_exists env path) eqn:Hexists.
  - rewrite pdf_existing by assumption.
    destruct (pdf_to_images env path) as [images|e];
      [|simpl; split; discriminate].
    destruct (pages_loop db env images [] out) as [[content|e] out'];
      [|simpl; split; discriminate].
    destruct (doc_build env output_template content);
      simpl; split; discriminate.
  - unfold pdf_to_single_output_pdf. rewrite Hexists. simpl.
    split; reflexivity.
Qed.

Lemma pdf_existing_console (db : unicode_db) (env : engines) (path : str)
      (out : list str) :
  os_path_exists env path = true ->
  snd (pdf_to_single_output_pdf db env path out) = out.
Proof.
  intros Hexists. rewrite pdf_existing by assumption.
  destruct (pdf_to_images env path) as [images|e]; [|reflexivity].
  pose proof (pages_loop_console db env images [] out) as Hout.
  destruct (pages_loop db env images [] out) as [[content|e] out'];
    simpl in Hout; subst out'; [|reflexivity].
  destruct (doc_build env output_template content); reflexivity.
Qed.

(** X1. [pdf_to_single_output_pdf] returns [None] for a missing file and
    for nothing else: when the file exists the result is a buffer or an
    exception. *)
Theorem none_only_for_missing_file (db : unicode_db) (env : engines)
        (path : str) (out : list str) :
  fst (pdf_to_single_output_pdf db env path out) = Return None
  <-> os_path_exists env path = false.
Proof. apply pdf_none_iff. Qed.

(** X2. When the file exists nothing is printed, whatever the engines
    do: the console is the same after the call, also when it raises. *)
Theorem existing_file_prints_nothing (db : unicode_db) (env : engines)
        (path : str) (out : list str) :
  os_path_exists env path = true ->
  snd (pdf_to_single_output_pdf db env path out) = out.
Proof. apply pdf_existing_console. Qed.

Lemma existing_file_prints_nothing_witness :
  os_path_exists smudged_env scan_path = true
  /\ snd (pdf_to_single_output_pdf latin1_db smudged_env scan_path [py "before"])
     = [py "before"].
Proof.
  split; [reflexivity|].
  apply (@existing_file_prints_nothing latin1_db smudged_env scan_path [py "before"]).
  reflexivity.
Defined.

(** X3. When the text of a page cannot be extracted, the pages before
    it being extracted and laid out, the conversion raises the exception of
    that page: the pages after it are not looked at and no document is
    built, whatever was laid out for the pages before. *)
Theorem ocr_failure_aborts (db : unicode_db) (env : engines) (path : str)
        (pre : list (image env)) (img : image env) (post : list (image env))
        (texts : list str) (e : exn) (out : list str) :
  os_path_exists env path = true ->
  pdf_to_images env path = Return (pre ++ img :: post) ->
  Forall2 (fun i t => extract_text_from_image db env i = Return t) pre texts ->
  Forall (page_accepted db env) texts ->
  extract_text_from_image db env img = Raise e ->
  pdf_to_single_output_pdf db env path out = (Raise e, out).
Proof.
  intros Hexists Hraster Hpre Hacc Himg.
  rewrite pdf_existing by assumption. rewrite Hraster.
  rewrite (@pages_loop_raises db env pre texts Hpre Hacc img post e [] out Himg).
  reflexivity.
Qed.

Lemma ocr_failure_aborts_witness :
  pdf_to_images smudged_env scan_path = Return ([py "ONE"] ++ smudge :: [py "three"])
  /\ page_accepted latin1_db smudged_env (py "ONE")
  /\ extract_text_from_image latin1_db smudged_env smudge
     = Raise (Exception (py "TesseractError"))
  /\ pdf_to_single_output_pdf latin1_db smudged_env scan_path []
     = (Raise (Exception (py "TesseractError")), []).
Proof.
  split; [reflexivity|]. split; [page_is_accepted|]. split; [reflexivity|].
  apply (@ocr_failure_aborts latin1_db smudged_env scan_path
                             [py "ONE"] smudge [py "three"] [py "ONE"]).
  - reflexivity.
  - reflexivity.
  - repeat constructor.
  - pages_are_accepted.
  - reflexivity.
Defined.

(** X4. The conversion returns a buffer exactly when the file exists,
    the rasterizer succeeds, the text of every page is extracted, the
    constructor of [Paragraph] accepts every line of every page, and the
    builder succeeds on the sections of all the pages in order; the buffer
    is the one the builder gives for that content. *)
Theorem buffer_iff_all_engines_succeed (db : unicode_db) (env : engines)
        (path : str) (out : list str) (pdf : bytes) :
  fst (pdf_to_single_output_pdf db env path out) = Return (Some pdf)
  <-> os_path_exists env path = true
      /\ exists images texts,
          pdf_to_images env path = Return images
          /\ Forall2 (fun img t => extract_text_from_image db env img = Return t)
                     images texts
          /\ Forall (page_accepted db env) texts
          /\ doc_build env output_template (concat (map (add_page db []) texts))
             = Return pdf.
Proof.
  split.
  - destruct (os_path_exists env path) eqn:Hexists.
    + rewrite pdf_existing by assumption.
      destruct (pdf_to_images env path) as [images|e]; [|discriminate].
      destruct (pages_loop db env images [] out) as [[content|e] out'] eqn:Hloop;
        [|discriminate].
      apply pages_loop_inv in Hloop.
      destruct Hloop as (_ & texts & Htexts & Hacc & ->).
      rewrite fold_add_page. simpl.
      destruct (doc_build env output_template _) as [pdf'|e] eqn:Hbuild;
        [|discriminate].
      simpl. intros [= ->]. split; [reflexivity|].
      exists images, texts. auto.
    + unfold pdf_to_single_output_pdf. rewrite Hexists. discriminate.
  - intros (Hexists & images & texts & Hraster & Htexts & Hacc & Hbuild).
    rewrite pdf_existing by assumption. rewrite Hraster.
    rewrite (@pages_loop_returns db env images texts Htexts Hacc [] out).
    rewrite fold_add_page. simpl. rewrite Hbuild. reflexivity.
Qed.

(** X21. When the constructor of [Paragraph] refuses a line of a page,
    the pages before it being extracted and laid out, the conversion
    raises the exception of the first such line: the pages after it are
    not looked at, their text is not extracted and no document is built. *)
Theorem paragraph_failure_aborts (db : unicode_db) (env : engines) (path : str)
        (pre : list (image env)) (img : image env) (post : list (image env))
        (texts : list str) (text : str) (e : exn) (out : list str) :
  os_path_exists env path = true ->
  pdf_to_images env path = Return (pre ++ img :: post) ->
  Forall2 (fun i t => extract_text_from_image db env i = Return t) pre texts ->
  Forall (page_accepted db env) texts ->
  extract_text_from_image db env img = Return text ->
  first_rejection db env (lines_of text) = Some e ->
  pdf_to_single_output_pdf db env path out = (Raise e, out).
Proof.
  intros Hexists Hraster Hpre Hacc Himg Hrej.
  rewrite pdf_existing by assumption. rewrite Hraster.
  rewrite (@pages_loop_rejects db env pre texts Hpre Hacc img post text e [] out
                               Himg Hrej).
  reflexivity.
Qed.

Lemma paragraph_failure_aborts_witness :
  pdf_to_images bracket_env scan_path = Return ([py "ok"] ++ py "x <y" :: [smudge])
  /\ extract_text_from_image latin1_db bracket_env (py "x <y") = Return (py "x <y")
  /\ escape_paragraph_text (py "x <y") = py "x <y"
  /\ first_rejection latin1_db bracket_env (lines_of (py "x <y"))
     = Some (Exception (py "ValueError"))
  /\ pdf_to_single_output_pdf latin1_db bracket_env scan_path []
     = (Raise (Exception (py "ValueError")), []).
Proof.
  split; [reflexivity|]. split; [reflexivity|]. split; [reflexivity|].
  split; [reflexivity|].
  apply (@paragraph_failure_aborts latin1_db bracket_env scan_path
                                   [py "ok"] (py "x <y") [smudge] [py "ok"]
                                   (py "x <y")).
  - reflexivity.
  - reflexivity.
  - repeat constructor.
  - pages_are_accepted.
  - reflexivity.
  - reflexivity.
Defined.

(** * Further properties of the text functions *)

Lemma dropwhile_all (f : char -> bool) (s : str) :
  Forall (fun c => f c = true) s -> dropwhile f s = [].
Proof.
  induction 1 as [|c t Hc _ IH]; [reflexivity|]. simpl. rewrite Hc. assumption.
Qed.

Lemma lstrip_fixed (db : unicode_db) (s : str) :
  ~ leading_space db s -> lstrip db s = s.
Proof.
  destruct s as [|c t]; [reflexivity|]. intros Hno.
  unfold lstrip. simpl.
  destruct (Py_UNICODE_ISSPACE db c) eqn:Hc; [|reflexivity].
  exfalso. apply Hno. exists c, t. auto.
Qed.

Lemma rstrip_fixed (db : unicode_db) (s : str) :
  ~ trailing_space db s -> rstrip db s = s.
Proof.
  intros Hno. unfold rstrip.
  destruct (rev s) as [|c t] eqn:Hrev.
  - simpl. apply (f_equal (@rev char)) in Hrev.
    rewrite rev_involutive in Hrev. auto.
  - simpl. destruct (Py_UNICODE_ISSPACE db c) eqn:Hc.
    + exfalso. apply Hno. exists (rev t), c. split; [|assumption].
      apply (f_equal (@rev char)) in Hrev.
      rewrite rev_involutive in Hrev. assumption.
    + rewrite <- Hrev. apply rev_involutive.
Qed.

Lemma strip_fixed (db : unicode_db) (s : str) :
  ~ leading_space db s -> ~ trailing_space db s -> strip db s = s.
Proof.
  intros Hl Ht. unfold strip. rewrite lstrip_fixed by assumption.
  apply rstrip_fixed. assumption.
Qed.

Lemma strip_has_no_tag (db : unicode_db) (s : str) :
  has_tag s = false -> has_tag (strip db s) = false.
Proof.
  intros Hs. apply tag_free_iff. apply tag_free_iff in Hs.
  destruct (strip_split db s) as (l & r & Heq & _).
  rewrite Heq in Hs. eapply tag_free_infix. eassumption.
Qed.

Lemma clean_text_has_no_tag (db : unicode_db) (text : str) :
  has_tag (clean_text db text) = false.
Proof. apply strip_has_no_tag, has_tag_sub. Qed.

Lemma strip_nil_iff (db : unicode_db) (s : str) :
  strip db s = [] <-> Forall (fun c => Py_UNICODE_ISSPACE db c = true) s.
Proof.
  split.
  - intros Hnil. destruct (strip_split db s) as (l & r & Heq & Hl & Hr).
    rewrite Hnil in Heq. rewrite Heq. apply Forall_app. auto.
  - intros Hall. unfold strip, lstrip. rewrite dropwhile_all by assumption.
    reflexivity.
Qed.

(** X5. [clean_text] is idempotent: a cleaned text has no tag left and
    no whitespace at its ends, so cleaning it again changes nothing. *)
Theorem clean_text_idempotent (db : unicode_db) (text : str) :
  clean_text db (clean_text db text) = clean_text db text.
Proof.
  unfold clean_text at 1. cbn zeta.
  rewrite sub_tag_fixed by apply clean_text_has_no_tag.
  apply strip_fixed; [apply strip_no_leading | apply strip_no_trailing].
Qed.

(** X6. The cleaned text is empty exactly when nothing but whitespace is
    left once the tags are removed: a page of blanks and tags counts as a
    blank page. *)
Theorem clean_text_empty_iff (db : unicode_db) (text : str) :
  clean_text db text = []
  <-> Forall (fun c => Py_UNICODE_ISSPACE db c = true) (Re.sub tag_pattern text).
Proof. apply strip_nil_iff. Qed.

(** X7. The strings [escape_paragraph_text] leaves unchanged are the
    ASCII-only strings without tags. *)
Theorem escape_fixed_iff (x : str) :
  escape_paragraph_text x = x <-> ascii_only x /\ tag_free x.
Proof.
  split.
  - intros Hfix. rewrite <- Hfix. split; [apply escape_ascii_only|].
    apply tag_free_iff, escape_has_no_tag.
  - intros [Hascii Hfree]. rewrite escape_unfold.
    rewrite sub_tag_fixed by (apply tag_free_iff; assumption).
    apply filter_ascii_fixed. assumption.
Qed.

Lemma sub_tag_no_lt (a rest : str) :
  ~ In LT a -> Re.sub tag_pattern (a ++ rest) = a ++ Re.sub tag_pattern rest.
Proof.
  induction a as [|c a IH]; intros Hno; [reflexivity|].
  simpl. rewrite sub_cons. pose proof (tag_match_cases c (a ++ rest)) as Hm.
  destruct (Re.match_here tag_pattern (c :: a ++ rest)) as [[|n]|].
  - contradiction.
  - destruct Hm as [-> _]. exfalso. apply Hno. left. reflexivity.
  - rewrite IH; [reflexivity|]. intros Hin. apply Hno. right. assumption.
Qed.

(** X8. A tag that follows text without an opening bracket is removed
    whole, and the scan goes on right after its closing bracket: the text
    on the two sides is escaped as it would be on its own. *)
Theorem escape_around_tag (a body b : str) :
  ~ In LT a -> body <> [] -> Forall (fun c => c <> GT) body ->
  escape_paragraph_text (a ++ LT :: body ++ GT :: b)
  = escape_paragraph_text a ++ escape_paragraph_text b.
Proof.
  intros Ha Hne Hall. rewrite !escape_unfold.
  rewrite sub_tag_no_lt by assumption.
  rewrite sub_tag_at_tag by assumption.
  rewrite filter_app. f_equal.
  rewrite <- (app_nil_r a) at 2. rewrite sub_tag_no_lt by assumption.
  simp sub. rewrite app_nil_r. reflexivity.
Qed.

Lemma escape_around_tag_witness :
  ~ In LT (py "Hello ") /\ py "b" <> []
  /\ escape_paragraph_text (py "Hello " ++ LT :: py "b" ++ GT :: py "World</b>")
     = escape_paragraph_text (py "Hello ") ++ escape_paragraph_text (py "World</b>").
Proof.
  assert (Hno : ~ In LT (py "Hello ")).
  { intros Hin. cbv in Hin. intuition discriminate. }
  assert (Hne : py "b" <> []) by discriminate.
  split; [exact Hno|]. split; [exact Hne|].
  apply (@escape_around_tag (py "Hello ") (py "b") (py "World</b>") Hno Hne).
  repeat constructor; discriminate.
Defined.

(** Every piece of a split is cut out of the string. *)
Lemma split_from_infix (sep : str) (s : str) :
  forall cur piece,
    In piece (split_from sep cur s) -> exists l r, cur ++ s = l ++ piece ++ r.
Proof.
  induction s as [s IH] using str_length_ind. intros cur piece.
  destruct s as [|c t].
  - simp split_from. intros [<-|[]]. exists [], []. reflexivity.
  - rewrite split_from_cons. destruct (starts_with sep (c :: t)).
    + intros [<-|Hin].
      * exists [], (c :: t). reflexivity.
      * apply IH in Hin; [|simpl; pose proof (length_skipn (length sep - 1) t); lia].
        destruct Hin as (l & r & Heq). simpl in Heq.
        exists (cur ++ c :: firstn (length sep - 1) t ++ l), r.
        rewrite <- (firstn_skipn (length sep - 1) t) at 1. rewrite Heq.
        repeat (rewrite <- app_assoc; simpl). reflexivity.
    + intros Hin. apply IH in Hin; [|simpl; lia].
      destruct Hin as (l & r & Heq). exists l, r.
      rewrite <- Heq, <- app_assoc. reflexivity.
Qed.

Lemma split_infix (s sep piece : str) :
  In piece (split s sep) -> exists l r, s = l ++ piece ++ r.
Proof. intros Hin. apply split_from_infix in Hin. exact Hin. Qed.

(** X9. In the pipeline the first substitution of [escape_paragraph_text]
    finds nothing to remove: the lines are cut out of a cleaned text, which
    has no tag, so escaping a line keeps its ASCII characters and drops the
    others. *)
Theorem lines_of_clean_text_escape (db : unicode_db) (text paragraph line : str) :
  In paragraph (split (clean_text db text) [NL; NL]) ->
  In line (split paragraph [NL]) ->
  Re.sub tag_pattern line = line
  /\ escape_paragraph_text line = filter is_ascii line.
Proof.
  intros Hp Hl.
  assert (Hline : has_tag line = false).
  { apply tag_free_iff.
    apply split_infix in Hl. destruct Hl as (l1 & r1 & Hl).
    apply split_infix in Hp. destruct Hp as (l2 & r2 & Hp).
    apply (@tag_free_infix l1 line r1). rewrite <- Hl.
    apply (@tag_free_infix l2 paragraph r2). rewrite <- Hp.
    apply tag_free_iff, clean_text_has_no_tag. }
  split; [apply sub_tag_fixed; assumption|].
  rewrite escape_unfold, sub_tag_fixed by assumption. reflexivity.
Qed.

Lemma lines_of_clean_text_escape_witness :
  Re.sub tag_pattern (py "c" ++ [233%N]) = py "c" ++ [233%N]
  /\ escape_paragraph_text (py "c" ++ [233%N]) = filter is_ascii (py "c" ++ [233%N]).
Proof.
  apply (@lines_of_clean_text_escape latin1_db
           (py "<p>a" ++ [NL; NL] ++ py "b" ++ [NL] ++ py "c" ++ [233%N] ++ py "</p> ")
           (py "b" ++ [NL] ++ py "c" ++ [233%N])
           (py "c" ++ [233%N])).
  - right. left. reflexivity.
  - right. left. reflexivity.
Defined.

(** ** More on [str.split(sep)] *)

Lemma starts_with_app (sep x : str) : starts_with sep (sep ++ x) = true.
Proof.
  induction sep as [|a sep IH]; [reflexivity|].
  simpl. rewrite N.eqb_refl. assumption.
Qed.

(** While [cur] is read, no occurrence of the separator starts inside
    it; so no piece holds the separator. *)
Lemma split_from_no_sep (sep : str) (s : str) :
  sep <> [] ->
  forall cur,
    (forall l r, cur = l ++ r -> r <> [] -> starts_with sep (r ++ s) = false) ->
    forall piece, In piece (split_from sep cur s) -> ~ occurs sep piece.
Proof.
  intros Hsep.
  assert (Hcur : forall cur s',
             (forall l r, cur = l ++ r -> r <> [] ->
                          starts_with sep (r ++ s') = false) ->
             ~ occurs sep cur).
  { intros cur s' Hinv (l & r & Heq).
    assert (sep ++ r <> []) as Hne by (destruct sep; [congruence | discriminate]).
    pose proof (Hinv l (sep ++ r) Heq Hne) as Hfalse.
    rewrite <- app_assoc, starts_with_app in Hfalse. discriminate. }
  induction s as [s IH] using str_length_ind. intros cur Hinv piece.
  destruct s as [|c t].
  - simp split_from. intros [<-|[]]. eapply Hcur. eassumption.
  - rewrite split_from_cons. destruct (starts_with sep (c :: t)) eqn:Hst.
    + intros [<-|Hin]; [eapply Hcur; eassumption|].
      revert Hin. apply IH.
      * simpl. pose proof (length_skipn (length sep - 1) t). lia.
      * intros l r Heq Hr. destruct l, r; try discriminate. congruence.
    + apply IH; [simpl; lia|].
      intros l r Heq Hr.
      destruct (exists_last Hr) as (r0 & c' & ->).
      rewrite app_assoc in Heq. apply app_inj_tail in Heq.
      destruct Heq as [Hcur' <-].
      rewrite <- app_assoc. simpl.
      destruct r0 as [|y r0]; [exact Hst|].
      apply (Hinv l (y :: r0)); [assumption | discriminate].
Qed.

(** X10. No piece of [s.split(sep)] holds the separator: a line has no
    newline in it, a paragraph no blank line. *)
Theorem split_pieces_without_separator (s sep piece : str) :
  sep <> [] -> In piece (split s sep) -> ~ occurs sep piece.
Proof.
  intros Hsep. unfold split. apply split_from_no_sep; [assumption|].
  intros l r Heq Hr. destruct l, r; try discriminate. congruence.
Qed.

Lemma split_pieces_without_separator_witness :
  [NL; NL] <> []
  /\ In (NL :: py "b") (split (py "a" ++ [NL; NL; NL] ++ py "b") [NL; NL])
  /\ ~ occurs [NL; NL] (NL :: py "b").
Proof.
  assert (Hsep : [NL; NL] <> []) by discriminate.
  assert (Hin : In (NL :: py "b") (split (py "a" ++ [NL; NL; NL] ++ py "b") [NL; NL]))
    by (right; left; reflexivity).
  split; [exact Hsep|]. split; [exact Hin|].
  exact (@split_pieces_without_separator
           (py "a" ++ [NL; NL; NL] ++ py "b") [NL; NL] (NL :: py "b") Hsep Hin).
Defined.

Lemma split_from_single_length (c : char) (s : str) :
  forall cur, length (split_from [c] cur s) = S (count_occ N.eq_dec s c).
Proof.
  induction s as [|x t IH]; intros cur.
  - simp split_from. reflexivity.
  - rewrite split_from_cons. simpl.
    destruct (N.eqb_spec c x) as [->|Hne]; simpl.
    + destruct (N.eq_dec x x); [|congruence]. rewrite IH. reflexivity.
    + destruct (N.eq_dec x c); [congruence|]. apply IH.
Qed.

(** X11. Splitting on a one-character separator gives one piece more than
    the separator occurs: a paragraph with [n] newlines has [n + 1] lines,
    the empty paragraph one empty line. *)
Theorem split_single_length (s : str) (c : char) :
  length (split s [c]) = S (count_occ N.eq_dec s c).
Proof. apply split_from_single_length. Qed.

Lemma split_from_single_skip (c : char) (x rest : str) :
  ~ In c x ->
  forall cur, split_from [c] cur (x ++ rest) = split_from [c] (cur ++ x) rest.
Proof.
  induction x as [|y x IH]; intros Hno cur.
  - rewrite app_nil_r. reflexivity.
  - simpl. rewrite split_from_cons. simpl.
    destruct (N.eqb_spec c y) as [->|Hne].
    + exfalso. apply Hno. left. reflexivity.
    + simpl. rewrite IH by (intros Hin; apply Hno; right; assumption).
      rewrite <- app_assoc. reflexivity.
Qed.

Lemma split_from_join_single (c : char) (l : list str) :
  forall x cur,
    Forall (fun piece => ~ In c piece) (x :: l) ->
    split_from [c] cur (join [c] (x :: l)) = (cur ++ x) :: l.
Proof.
  induction l as [|y l IH]; intros x cur Hall;
    inversion Hall as [|? ? Hx Hl]; subst.
  - simpl. rewrite <- (app_nil_r x) at 1.
    rewrite split_from_single_skip by assumption. simp split_from. reflexivity.
  - rewrite join_cons by discriminate.
    rewrite split_from_single_skip by assumption.
    cbn [app]. rewrite split_from_cons. simpl. rewrite N.eqb_refl. simpl.
    f_equal. apply (IH y []). assumption.
Qed.

(** X12. For a one-character separator [split] undoes [join]: a list of
    pieces, not empty, none of which holds the separator, is given back
    when its join is split. *)
Theorem split_join_single (c : char) (l : list str) :
  l <> [] -> Forall (fun piece => ~ In c piece) l ->
  split (join [c] l) [c] = l.
Proof.
  intros Hne Hall. destruct l as [|x l]; [congruence|].
  unfold split. rewrite split_from_join_single by assumption. reflexivity.
Qed.

Lemma split_join_single_witness :
  [py "a"; []; py "b c"] <> []
  /\ split (join [NL] [py "a"; []; py "b c"]) [NL] = [py "a"; []; py "b c"].
Proof.
  assert (Hne : [py "a"; []; py "b c"] <> []) by discriminate.
  split; [exact Hne|].
  apply (@split_join_single NL [py "a"; []; py "b c"] Hne).
  repeat constructor; intros Hin; cbv in Hin; intuition discriminate.
Defined.

(** * Further properties of the composer *)

Lemma ascii_only_is_ascii (s : str) :
  ascii_only s -> Forall (fun c => is_ascii c = true) s.
Proof.
  apply Forall_impl. intros c Hc. unfold is_ascii. apply N.leb_le. lia.
Qed.

Lemma case_of_ascii (db1 db2 : unicode_db) (c : char) :
  is_ascii c = true -> case_of db1 c = case_of db2 c.
Proof. intros Hc. unfold case_of. rewrite Hc. reflexivity. Qed.

Lemma isspace_ascii (db1 db2 : unicode_db) (c : char) :
  is_ascii c = true -> Py_UNICODE_ISSPACE db1 c = Py_UNICODE_ISSPACE db2 c.
Proof. intros Hc. unfold Py_UNICODE_ISSPACE. rewrite Hc. reflexivity. Qed.

Lemma isupper_loop_ascii (db1 db2 : unicode_db) (s : str) :
  Forall (fun c => is_ascii c = true) s ->
  forall seen, isupper_loop db1 seen s = isupper_loop db2 seen s.
Proof.
  induction 1 as [|c t Hc _ IH]; intros seen; [reflexivity|].
  simpl. unfold Py_UNICODE_ISLOWER, Py_UNICODE_ISTITLE, Py_UNICODE_ISUPPER.
  rewrite (case_of_ascii db1 db2 c Hc), !IH. reflexivity.
Qed.

Lemma split_whitespace_from_ascii (db1 db2 : unicode_db) (s : str) :
  Forall (fun c => is_ascii c = true) s ->
  forall in_word word,
    split_whitespace_from db1 in_word word s
    = split_whitespace_from db2 in_word word s.
Proof.
  induction 1 as [|c t Hc _ IH]; intros in_word word; [reflexivity|].
  simpl. rewrite (isspace_ascii db1 db2 c Hc), !IH. reflexivity.
Qed.

(** On ASCII text the title test does not look at the Unicode table. *)
Lemma is_title_ascii (db1 db2 : unicode_db) (line : str) :
  ascii_only line -> is_title db1 line = is_title db2 line.
Proof.
  intros Hascii. apply ascii_only_is_ascii in Hascii.
  unfold is_title, split_whitespace.
  rewrite !isupper_is_loop.
  rewrite (isupper_loop_ascii db1 db2 Hascii).
  rewrite (split_whitespace_from_ascii db1 db2 Hascii). reflexivity.
Qed.

Lemma fold_left_agree {A B} (f g : A -> B -> A) (l : list B) :
  (forall a b, f a b = g a b) -> forall a, fold_left f l a = fold_left g l a.
Proof.
  intros Hfg. induction l as [|b l IH]; intros a; [reflexivity|].
  simpl. rewrite Hfg. apply IH.
Qed.

Lemma add_line_any_db (db1 db2 : unicode_db) (content : list flowable) (line : str) :
  add_line db1 content line = add_line db2 content line.
Proof.
  unfold add_line. cbn zeta.
  rewrite (is_title_ascii db1 db2 (escape_ascii_only line)). reflexivity.
Qed.

Lemma rejection_any_db (db1 db2 : unicode_db) (env : engines) (line : str) :
  rejection db1 env line = rejection db2 env line.
Proof.
  unfold rejection, line_style. cbn zeta.
  rewrite (is_title_ascii db1 db2 (escape_ascii_only line)). reflexivity.
Qed.

Lemma first_rejection_any_db (db1 db2 : unicode_db) (env : engines)
      (lines : list str) :
  first_rejection db1 env lines = first_rejection db2 env lines.
Proof.
  induction lines as [|line lines IH]; [reflexivity|].
  simpl. rewrite (rejection_any_db db1 db2), IH. reflexivity.
Qed.

Lemma add_page_agree (db1 db2 : unicode_db) (content : list flowable) (text : str) :
  add_page db1 content text = add_page db2 content text.
Proof.
  unfold add_page. cbn zeta. f_equal.
  apply fold_left_agree. intros acc paragraph.
  unfold add_paragraph. cbn zeta. f_equal.
  apply fold_left_agree. intros acc' line. apply add_line_any_db.
Qed.

(** X13. Once the text of a page is extracted, what the loop does with
    it does not depend on the Unicode table of the interpreter: with two
    tables the same flowables are appended, or the same exception is
    raised.  The lines are escaped to ASCII before they are tested for
    being a title, and the case and whitespace of ASCII are fixed.  (The
    extraction itself reads the table, when [clean_text] trims the
    text.) *)
Theorem add_page_any_db (db1 db2 : unicode_db) (env : engines)
        (content : list flowable) (text : str) (out : list str) :
  page_step db1 env content text out = page_step db2 env content text out
  /\ add_page db1 content text = add_page db2 content text.
Proof.
  split; [|apply add_page_agree].
  rewrite !page_step_run.
  rewrite (first_rejection_any_db db1 db2), (add_page_agree db1 db2).
  reflexivity.
Qed.

Lemma case_of_ascii_letters (db : unicode_db) (c : char) :
  is_ascii c = true ->
  case_of db c =
  if is_upper_ascii c then Upper
  else if is_lower_ascii c then Lower else Caseless.
Proof. intros Hc. unfold case_of. rewrite Hc. reflexivity. Qed.

Lemma upper_not_lower_ascii (c : char) :
  is_upper_ascii c = true -> is_lower_ascii c = false.
Proof.
  unfold is_upper_ascii, is_lower_ascii. intros H.
  apply andb_true_iff in H. destruct H as [_ H]. apply N.leb_le in H.
  apply andb_false_iff. left. apply N.leb_gt. lia.
Qed.

(** On ASCII text, [isupper] asks for a letter of A-Z and no letter of
    a-z. *)
Lemma uppercase_line_ascii (db : unicode_db) (text : str) :
  ascii_only text ->
  uppercase_line db text <->
  (exists c, In c text /\ is_upper_ascii c = true)
  /\ (forall c, In c text -> is_lower_ascii c = false).
Proof.
  intros Hascii. apply ascii_only_is_ascii in Hascii.
  rewrite Forall_forall in Hascii.
  unfold uppercase_line, cased. split.
  - intros [(c & Hc & Hcased) Hall]. split.
    + exists c. split; [assumption|].
      pose proof (Hall c Hc Hcased) as Hup.
      rewrite (case_of_ascii_letters db c (Hascii c Hc)) in Hup.
      destruct (is_upper_ascii c); [reflexivity|].
      destruct (is_lower_ascii c); discriminate.
    + intros c' Hc'.
      destruct (is_lower_ascii c') eqn:Hlow; [|reflexivity].
      assert (case_of db c' = Upper) as Hup.
      { apply Hall; [assumption|].
        rewrite (case_of_ascii_letters db c' (Hascii c' Hc')), Hlow.
        destruct (is_upper_ascii c'); discriminate. }
      rewrite (case_of_ascii_letters db c' (Hascii c' Hc')), Hlow in Hup.
      destruct (is_upper_ascii c') eqn:Hupper; [|discriminate].
      apply upper_not_lower_ascii in Hupper. congruence.
  - intros [(c & Hc & Hup) Hnolow]. split.
    + exists c. split; [assumption|].
      rewrite (case_of_ascii_letters db c (Hascii c Hc)), Hup. discriminate.
    + intros c' Hc' Hcased.
      rewrite (case_of_ascii_letters db c' (Hascii c' Hc')) in *.
      rewrite (Hnolow c' Hc') in *.
      destruct (is_upper_ascii c'); congruence.
Qed.

(** The paragraphs a page adds are ASCII and styled by [is_title]. *)
Lemma add_page_paragraphs (db : unicode_db) (t : str) :
  Forall (fun f => match f with
                   | Paragraph text st =>
                       ascii_only text
                       /\ st = if is_title db text then title_style
                               else normal_style
                   | _ => True
                   end) (add_page db [] t).
Proof.
  unfold add_page. cbn zeta.
  rewrite (fold_left_appends (add_paragraph db) _ (add_paragraph_app db) []). simpl.
  apply Forall_app. split; [|repeat constructor].
  apply Forall_concat_map. intros p.
  unfold add_paragraph. cbn zeta.
  rewrite (fold_left_appends (add_line db) _ (add_line_app db) []). simpl.
  apply Forall_app. split; [|repeat constructor].
  apply Forall_concat_map. intros line.
  unfold add_line. simpl.
  destruct (is_title db (escape_paragraph_text line)) eqn:Htitle;
    (apply Forall_cons; [|apply Forall_nil]);
    (split; [apply escape_ascii_only | rewrite Htitle; reflexivity]).
Qed.

(** X14. A paragraph of a page is title-styled exactly when its text has
    a letter of A-Z, no letter of a-z and fewer than 10 words. *)
Theorem title_style_iff (db : unicode_db) (t text : str) (st : style) :
  In (Paragraph text st) (add_page db [] t) ->
  st = title_style <->
  (exists c, In c text /\ is_upper_ascii c = true)
  /\ (forall c, In c text -> is_lower_ascii c = false)
  /\ count_words db text < 10.
Proof.
  intros Hin.
  pose proof (add_page_paragraphs db t) as Hall.
  rewrite Forall_forall in Hall. specialize (Hall _ Hin).
  simpl in Hall. destruct Hall as [Hascii ->].
  assert (Htitle : is_title db text = true <->
                   (exists c, In c text /\ is_upper_ascii c = true)
                   /\ (forall c, In c text -> is_lower_ascii c = false)
                   /\ count_words db text < 10).
  { unfold is_title.
    rewrite andb_true_iff, isupper_spec, Nat.ltb_lt, split_whitespace_length.
    rewrite (uppercase_line_ascii db Hascii). tauto. }
  rewrite <- Htitle. destruct (is_title db text); split; congruence.
Qed.

Lemma title_style_iff_witness :
  In (Paragraph (py "TITLE HERE") title_style) (add_page latin1_db [] sample_text)
  /\ (title_style = title_style <->
      (exists c, In c (py "TITLE HERE") /\ is_upper_ascii c = true)
      /\ (forall c, In c (py "TITLE HERE") -> is_lower_ascii c = false)
      /\ count_words latin1_db (py "TITLE HERE") < 10).
Proof.
  assert (Hin : In (Paragraph (py "TITLE HERE") title_style)
                   (add_page latin1_db [] sample_text))
    by (vm_compute; left; reflexivity).
  split; [exact Hin|].
  exact (@title_style_iff latin1_db sample_text (py "TITLE HERE") title_style Hin).
Defined.

Lemma lines_layout (db : unicode_db) (lines : list str) :
  length (concat (map (add_line db []) lines)) = length lines
  /\ filter is_spacer (concat (map (add_line db []) lines)) = [].
Proof.
  induction lines as [|line lines [IHlen IHsp]]; [split; reflexivity|].
  simpl. rewrite length_app, filter_app, IHlen, IHsp.
  unfold add_line. simpl.
  destruct (is_title db (escape_paragraph_text line)); split; reflexivity.
Qed.

Lemma paragraphs_layout (db : unicode_db) (ps : list str) :
  length (concat (map (add_paragraph db []) ps))
  = length (concat (map (fun p => split p [NL]) ps)) + length ps
  /\ length (filter is_spacer (concat (map (add_paragraph db []) ps)))
     = length ps.
Proof.
  induction ps as [|p ps [IHlen IHsp]]; [split; reflexivity|].
  simpl. rewrite !length_app, filter_app, length_app, IHlen, IHsp.
  unfold add_paragraph. cbn zeta.
  rewrite (fold_left_appends (add_line db) _ (add_line_app db) []). simpl.
  destruct (lines_layout db (split p [NL])) as [Hlen Hsp].
  rewrite length_app, filter_app, Hlen, Hsp. simpl. split; lia.
Qed.

(** X15. The section of a page has one paragraph flowable for every line
    of the text, one spacer for every paragraph and one page break: no
    line and no paragraph is dropped or merged, the empty ones included. *)
Theorem page_section_size (db : unicode_db) (text : str) :
  length (filter is_spacer (add_page db [] text)) = length (split text [NL; NL])
  /\ length (add_page db [] text)
     = length (concat (map (fun p => split p [NL]) (split text [NL; NL])))
       + length (split text [NL; NL]) + 1.
Proof.
  unfold add_page. cbn zeta.
  rewrite (fold_left_appends (add_paragraph db) _ (add_paragraph_app db) []). simpl.
  destruct (paragraphs_layout db (split text [NL; NL])) as [Hlen Hsp].
  rewrite filter_app, !length_app, Hlen, Hsp. simpl. split; lia.
Qed.

(** X16. The loop over the pages only appends: the content it starts
    from is kept at the front of the content it returns, and what is added
    holds one page break for every image. *)
Theorem pages_loop_appends (db : unicode_db) (env : engines)
        (images : list (image env)) (content : list flowable) (out : list str) :
  match pages_loop db env images content out with
  | (Return content', _) =>
      exists added,
        content' = content ++ added /\ count_page_breaks added = length images
  | (Raise _, _) => True
  end.
Proof.
  destruct (pages_loop db env images content out) as [[content'|e] out'] eqn:Hloop;
    [|exact I].
  apply pages_loop_inv in Hloop. destruct Hloop as (_ & texts & Htexts & _ & ->).
  rewrite fold_add_page. exists (concat (map (add_page db []) texts)).
  split; [reflexivity|].
  rewrite (count_page_breaks_concat (n := 1)).
  - rewrite length_map, Nat.mul_1_l. symmetry.
    eapply Forall2_length; eassumption.
  - apply Forall_map, Forall_forall. intros t _. apply add_page_one_break.
Qed.

(** * The Streamlit script *)

Lemma str_eqb_refl (a : str) : str_eqb a a = true.
Proof. unfold str_eqb. destruct (list_eq_dec N.eq_dec a a); congruence. Qed.

Lemma str_eqb_neq (a b : str) : a <> b -> str_eqb a b = false.
Proof. unfold str_eqb. destruct (list_eq_dec N.eq_dec a b); congruence. Qed.

(** The conversion of an uploaded file, as the script runs it. *)
Lemma script_upload (db : unicode_db) (base : engines)
      (rasterize : bytes -> outcome (list (image base)))
      (buffer : bytes) (st : world) :
  let fs := write_file temp_pdf buffer (files st) in
  let shown := page st ++ [st_title (py "Processador de PDF com OCR")]
                       ++ [st_file_uploader (py "Escolha um arquivo PDF") (py "pdf")] in
  script db base rasterize (Some buffer) st =
  match pdf_to_single_output_pdf db (on_disk base rasterize fs) temp_pdf (stdout st) with
  | (Raise e, out) => (Raise e, World fs out shown)
  | (Return output_pdf_content, out) =>
      (Return tt,
       World (fun p => if str_eqb p temp_pdf then None else fs p) out
             (shown ++ [download_button output_pdf_content]))
  end.
Proof.
  intros fs shown. unfold script, show. cbn [files stdout page].
  fold fs. rewrite <- app_assoc. fold shown.
  destruct (pdf_to_single_output_pdf db (on_disk base rasterize fs) temp_pdf (stdout st))
    as [[output|e] out]; [|reflexivity].
  assert (Hfs : fs temp_pdf = Some buffer)
    by (unfold fs, write_file; rewrite str_eqb_refl; reflexivity).
  unfold os_remove. rewrite Hfs. reflexivity.
Qed.

Lemma temp_exists (base : engines)
      (rasterize : bytes -> outcome (list (image base)))
      (buffer : bytes) (fs : filesystem) :
  os_path_exists (on_disk base rasterize (write_file temp_pdf buffer fs)) temp_pdf
  = true.
Proof.
  unfold on_disk. cbn [os_path_exists]. unfold write_file.
  rewrite str_eqb_refl. reflexivity.
Qed.

(** X17. Whatever is uploaded and whatever the engines do, a run of the
    script prints nothing (the missing-file message cannot appear, the
    file was just written) and leaves every file other than ["temp.pdf"]
    as it was. *)
Theorem script_console_and_other_files (db : unicode_db) (base : engines)
        (rasterize : bytes -> outcome (list (image base)))
        (uploaded_file : option bytes) (st : world) :
  stdout (snd (script db base rasterize uploaded_file st)) = stdout st
  /\ forall p, p <> temp_pdf ->
               files (snd (script db base rasterize uploaded_file st)) p
               = files st p.
Proof.
  destruct uploaded_file as [buffer|]; [|split; reflexivity].
  rewrite script_upload. cbn zeta.
  pose proof (@pdf_existing_console db _ temp_pdf (stdout st)
                (temp_exists base rasterize buffer (files st))) as Hout.
  destruct (pdf_to_single_output_pdf _ _ _ _) as [[output|e] out];
    simpl in Hout; subst out; (split; [reflexivity|]);
    intros p Hp; cbn [snd files]; unfold write_file;
    rewrite (str_eqb_neq Hp); reflexivity.
Qed.

(** X18. When a run with an upload returns, the page shows the title,
    the uploader and a download button that carries a buffer (never
    [None]), ["temp.pdf"] is gone, and the buffer is what the conversion of
    the uploaded file returned. *)
Theorem script_returns_inv (db : unicode_db) (base : engines)
        (rasterize : bytes -> outcome (list (image base)))
        (buffer : bytes) (st st' : world) :
  script db base rasterize (Some buffer) st = (Return tt, st') ->
  exists pdf,
    fst (pdf_to_single_output_pdf
           db (on_disk base rasterize (write_file temp_pdf buffer (files st)))
           temp_pdf (stdout st)) = Return (Some pdf)
    /\ page st' = page st ++ [st_title (py "Processador de PDF com OCR");
                              st_file_uploader (py "Escolha um arquivo PDF") (py "pdf");
                              download_button (Some pdf)]
    /\ files st' temp_pdf = None.
Proof.
  rewrite script_upload. cbn zeta.
  pose proof (pdf_none_iff db (on_disk base rasterize
                                       (write_file temp_pdf buffer (files st)))
                           temp_pdf (stdout st)) as Hnone.
  rewrite temp_exists in Hnone.
  destruct (pdf_to_single_output_pdf _ _ _ _) as [[output|e] out];
    [|discriminate].
  intros [= <-]. simpl in Hnone.
  destruct output as [pdf|]; [|destruct Hnone as [Hnone _]; discriminate (Hnone eq_refl)].
  exists pdf. split; [reflexivity|]. split.
  - simpl. repeat rewrite <- app_assoc. reflexivity.
  - cbn [files]. rewrite str_eqb_refl. reflexivity.
Qed.

Lemma script_returns_inv_witness :
  exists pdf,
    fst (pdf_to_single_output_pdf
           latin1_db
           (on_disk (text_env []) one_page
                    (write_file temp_pdf (bytes_of "HELLO") (files start_world)))
           temp_pdf (stdout start_world)) = Return (Some pdf)
    /\ page (snd (script latin1_db (text_env []) one_page
                         (Some (bytes_of "HELLO")) start_world))
       = page start_world
              ++ [st_title (py "Processador de PDF com OCR");
                  st_file_uploader (py "Escolha um arquivo PDF") (py "pdf");
                  download_button (Some pdf)]
    /\ files (snd (script latin1_db (text_env []) one_page
                          (Some (bytes_of "HELLO")) start_world)) temp_pdf = None.
Proof.
  apply (@script_returns_inv latin1_db (text_env []) one_page (bytes_of "HELLO")
                             start_world).
  vm_compute. reflexivity.
Defined.

(** X19. When the conversion of the uploaded file raises, the script
    raises that exception and stops there: no download button is shown,
    and ["temp.pdf"] stays on disk with the uploaded bytes. *)
Theorem script_failure_leaves_temp (db : unicode_db) (base : engines)
        (rasterize : bytes -> outcome (list (image base)))
        (buffer : bytes) (st : world) (e : exn) (out : list str) :
  pdf_to_single_output_pdf
    db (on_disk base rasterize (write_file temp_pdf buffer (files st)))
    temp_pdf (stdout st) = (Raise e, out) ->
  exists st',
    script db base rasterize (Some buffer) st = (Raise e, st')
    /\ page st' = page st ++ [st_title (py "Processador de PDF com OCR");
                              st_file_uploader (py "Escolha um arquivo PDF") (py "pdf")]
    /\ files st' temp_pdf = Some buffer.
Proof.
  intros Hrun. rewrite script_upload. cbn zeta. rewrite Hrun.
  eexists. split; [reflexivity|]. split; [reflexivity|].
  cbn [files]. unfold write_file. rewrite str_eqb_refl. reflexivity.
Qed.

Lemma script_failure_leaves_temp_witness :
  pdf_to_single_output_pdf
    latin1_db
    (on_disk smudged_env one_page
             (write_file temp_pdf (bytes_of "#") (files start_world)))
    temp_pdf (stdout start_world)
  = (Raise (Exception (py "TesseractError")), [])
  /\ exists st',
      script latin1_db smudged_env one_page (Some (bytes_of "#")) start_world
      = (Raise (Exception (py "TesseractError")), st')
      /\ page st' = page start_world
                         ++ [st_title (py "Processador de PDF com OCR");
                             st_file_uploader (py "Escolha um arquivo PDF") (py "pdf")]
      /\ files st' temp_pdf = Some (bytes_of "#").
Proof.
  assert (Hrun : pdf_to_single_output_pdf
                   latin1_db
                   (on_disk smudged_env one_page
                            (write_file temp_pdf (bytes_of "#") (files start_world)))
                   temp_pdf (stdout start_world)
                 = (Raise (Exception (py "TesseractError")), []))
    by reflexivity.
  split; [exact Hrun|].
  exact (@script_failure_leaves_temp latin1_db smudged_env one_page (bytes_of "#")
                                     start_world _ _ Hrun).
Defined.

(** X20. When the rasterizer reads the uploaded bytes, the text of every
    page is extracted, the constructor of [Paragraph] accepts every line
    and the builder succeeds, the run returns and the download button
    carries the buffer built from the sections of the pages in order. *)
Theorem script_success (db : unicode_db) (base : engines)
        (rasterize : bytes -> outcome (list (image base)))
        (buffer : bytes) (st : world)
        (images : list (image base)) (texts : list str) (pdf : bytes) :
  rasterize buffer = Return images ->
  Forall2 (fun img t => extract_text_from_image db base img = Return t)
          images texts ->
  Forall (page_accepted db base) texts ->
  doc_build base output_template (concat (map (add_page db []) texts))
  = Return pdf ->
  exists st',
    script db base rasterize (Some buffer) st = (Return tt, st')
    /\ page st' = page st ++ [st_title (py "Processador de PDF com OCR");
                              st_file_uploader (py "Escolha um arquivo PDF") (py "pdf");
                              download_button (Some pdf)]
    /\ files st' temp_pdf = None.
Proof.
  intros Hraster Htexts Hacc Hbuild.
  rewrite script_upload. cbn zeta.
  set (env := on_disk base rasterize (write_file temp_pdf buffer (files st))).
  assert (Hrun : pdf_to_single_output_pdf db env temp_pdf (stdout st)
                 = (Return (Some pdf), stdout st)).
  { rewrite pdf_existing by apply temp_exists.
    assert (pdf_to_images env temp_pdf = Return images) as ->.
    { unfold pdf_to_images, env, on_disk. cbn [convert_from_path].
      unfold write_file. rewrite str_eqb_refl. assumption. }
    rewrite (@pages_loop_returns db env images texts Htexts Hacc [] (stdout st)).
    rewrite fold_add_page. simpl.
    change (doc_build env) with (doc_build base). rewrite Hbuild. reflexivity. }
  rewrite Hrun. eexists. split; [reflexivity|]. split.
  - simpl. repeat rewrite <- app_assoc. reflexivity.
  - cbn [files]. rewrite str_eqb_refl. reflexivity.
Qed.

Lemma script_success_witness :
  one_page (bytes_of "HELLO") = Return [py "HELLO"]
  /\ exists st',
      script latin1_db (text_env []) one_page (Some (bytes_of "HELLO")) start_world
      = (Return tt, st')
      /\ page st' = page start_world
                         ++ [st_title (py "Processador de PDF com OCR");
                             st_file_uploader (py "Escolha um arquivo PDF") (py "pdf");
                             download_button (Some [])]
      /\ files st' temp_pdf = None.
Proof.
  split; [reflexivity|].
  apply (@script_success latin1_db (text_env []) one_page (bytes_of "HELLO")
                         start_world [py "HELLO"] [py "HELLO"] []).
  - reflexivity.
  - repeat constructor.
  - pages_are_accepted.
  - reflexivity.
Defined.
